(** * bitski-js: the OAuth manager and the callback-type detection

    A shallow embedding of
    - [packages/browser/src/auth/oauth-manager.ts] (class [OAuthManager]) and
    - the [Bitski] class ([signInCallback], [assumedCallbackType]),
    followed by the properties of the specification that concern them.

    JavaScript objects that the code mutates and shares (the module-level
    array [DEFAULT_SCOPES], promises, the manager's fields) are modelled by
    explicit state passing over a [Heap]; calls into collaborators whose code
    is outside the repository (the AppAuth request handlers, [fetch]) are
    recorded in a trace or taken as parameters. *)

From Stdlib Require Import ZArith String Ascii List Bool Lia DecimalString.
From stdpp Require Import base option list.
Import ListNotations.

Set Warnings "-register-all".

Local Open Scope string_scope.
Local Open Scope list_scope.

(** ** JavaScript strings and arrays *)

(** [Array.prototype.join] on an array whose elements are already strings. *)
Fixpoint join (sep : string) (l : list string) : string :=
  match l with
  | [] => ""
  | x :: r =>
      match r with
      | [] => x
      | _ :: _ => String.append x (String.append sep (join sep r))
      end
  end.

(** Cut a string at every occurrence of the character [c]
    ([String.prototype.split] with a one-character separator). *)
Fixpoint split_on (c : ascii) (s : string) : list string :=
  match s with
  | EmptyString => [""]
  | String a r =>
      if Ascii.eqb a c then "" :: split_on c r
      else match split_on c r with
           | [] => [String a ""]
           | t :: ts => String a t :: ts
           end
  end.

Definition is_empty_string (s : string) : bool :=
  match s with EmptyString => true | String _ _ => false end.

(** The scope tokens an authorization server reads out of the [scope]
    parameter: the non-empty pieces between spaces. *)
Definition scope_tokens (scope : string) : list string :=
  List.filter (fun t => negb (is_empty_string t)) (split_on " "%char scope).

(** Number of times the scope [s] is requested by a [scope] parameter. *)
Definition scope_count (s : string) (scope : string) : nat :=
  count_occ string_dec (scope_tokens scope) s.

(** ** JSON values, as [Response.json()] yields them *)

(** A number is represented by the decimal text [Number.prototype.toString]
    prints for it (["0"] for both zeros); an object by its own properties,
    looked up by first match. *)
Inductive json : Type :=
| JNull
| JBool (b : bool)
| JNum (repr : string)
| JStr (s : string)
| JArr (elems : list json)
| JObj (props : list (string * json)).

(** A JavaScript value that may be [undefined] ([None]). *)
Definition jsval := option json.

Definition truthy_json (v : json) : bool :=
  match v with
  | JNull => false
  | JBool b => b
  | JNum r => negb (String.eqb r "0")
  | JStr s => negb (is_empty_string s)
  | JArr _ => true
  | JObj _ => true
  end.

Definition truthy (v : jsval) : bool :=
  match v with None => false | Some j => truthy_json j end.

Fixpoint assoc_get (k : string) (props : list (string * json)) : jsval :=
  match props with
  | [] => None
  | (k', v) :: r => if String.eqb k k' then Some v else assoc_get k r
  end.

(** Property read [v.k] for a name [k] that no prototype defines and that is
    not an index or [length] (here: [error], [message]): own property of an
    object, [undefined] on every other value. On [null] and [undefined]
    JavaScript throws; the code below guards every read by [&&]. *)
Definition get_prop (v : jsval) (k : string) : jsval :=
  match v with
  | Some (JObj props) => assoc_get k props
  | _ => None
  end.

Definition has_own (k : string) (props : list (string * json)) : bool :=
  match assoc_get k props with Some _ => true | None => false end.

(** ** Errors and promises *)

(** Exceptions by class. [Error m] is [new Error(m)] for a string [m]; the
    messages of [TypeError] and [SyntaxError] are engine text and are left
    out; the library's [AppAuthError] keeps the value it was given as
    [message] without converting it. *)
Inductive JsError : Type :=
| Error (message : string)
| TypeError
| SyntaxError
| AppAuthError (message : json).

Inductive PromiseState (A : Type) : Type :=
| Pending
| Fulfilled (value : A)
| Rejected (reason : JsError).
Arguments Pending {A}.
Arguments Fulfilled {A} value.
Arguments Rejected {A} reason.

Definition is_settled {A} (p : PromiseState A) : bool :=
  match p with Pending => false | _ => true end.

(** [promise.then(f)] for an [f] that returns a promise (or throws). *)
Definition promise_then {A B} (p : PromiseState A) (f : A -> PromiseState B)
  : PromiseState B :=
  match p with
  | Pending => Pending
  | Fulfilled v => f v
  | Rejected e => Rejected e
  end.

(** [ToString] of a parsed JSON value; [None] when the conversion throws a
    [TypeError]. A plain object prints as ["[object Object]"] unless an own
    property [toString] (never callable in JSON data) shadows the inherited
    method; an array joins its elements with commas, [null] elements printing
    as the empty string. *)
Fixpoint ToString (v : json) : option string :=
  match v with
  | JNull => Some "null"
  | JBool b => Some (if b then "true" else "false")
  | JNum r => Some r
  | JStr s => Some s
  | JArr l =>
      option_map (join ",")
        ((fix elems (l : list json) : option (list string) :=
            match l with
            | [] => Some []
            | x :: r =>
                match (match x with JNull => Some "" | _ => ToString x end),
                      elems r with
                | Some s, Some t => Some (s :: t)
                | _, _ => None
                end
            end) l)
  | JObj props =>
      if has_own "toString" props then None else Some "[object Object]"
  end.

(** What the expression [new Error(v)] evaluates to, or throws. *)
Definition new_Error (v : json) : JsError :=
  match ToString v with
  | Some m => Error m
  | None => TypeError
  end.

(** ** HTTP: [fetch] and its responses *)

(** A fetch [Response]: its status and what [response.json()] gives, [None]
    when the body does not parse (the promise of [json()] rejects). *)
Record Response : Type := {
  status : Z;
  body : option json
}.

(** One call [fetch(url, init)]. A request body, when there is one, is the
    form encoding of a token request and is kept as that request. *)
Record TokenRequest : Type := {
  tr_client_id : string;
  tr_grant_type : string;
  tr_redirect_uri : string;
  tr_code : option string;
  tr_refresh_token : option string
}.

Record FetchCall : Type := {
  url : string;
  method : option string;
  headers : list (string * string);
  fetch_body : option TokenRequest
}.

(** The HTTP method [fetch] uses: [GET] unless [init.method] is given. *)
Definition effective_method (c : FetchCall) : string :=
  match method c with Some m => m | None => "GET" end.

(** The environment: what each [fetch] settles to. *)
Definition Network := FetchCall -> PromiseState Response.

Definition status_ok (response : Response) : bool :=
  (200 <=? status response)%Z && (status response <? 300)%Z.

(** ** The AppAuth interfaces the manager is written against *)

Record AuthorizationServiceConfiguration : Type := {
  authorizationEndpoint : string;
  tokenEndpoint : string;
  revocationEndpoint : string;
  userInfoEndpoint : option string
}.

(** [TokenResponse] and [UserInfoResponse] wrap the JSON of the reply. *)
Definition TokenResponse := json.
Definition UserInfoResponse := json.

(** Interface [TokenRequestHandler]. *)
Record TokenRequestHandler : Type := {
  performTokenRequest :
    AuthorizationServiceConfiguration -> TokenRequest -> Network ->
    PromiseState TokenResponse
}.

Definition GRANT_TYPE_AUTHORIZATION_CODE : string := "authorization_code".
Definition GRANT_TYPE_REFRESH_TOKEN : string := "refresh_token".
Definition RESPONSE_TYPE_CODE : string := "code".

Definition Z_to_string (z : Z) : string :=
  NilEmpty.string_of_int (Z.to_int z).

(** The library classes [BaseTokenRequestHandler] over [FetchRequestor]
    (package @openid/appauth, an external dependency: its code is not part of
    the repository). The manager only holds it behind the interface above;
    this instance records what the library does with the reply of the token
    endpoint, for an endpoint that is a well-formed URL: a status outside
    [200,300) rejects with an [AppAuthError] carrying the status, a body that
    does not parse rejects with the parse exception of [response.json()], and
    a parsed body is a token response exactly when it has no [error]
    property. *)
Definition FetchRequestor_xhr (net : Network) (c : FetchCall)
  : PromiseState json :=
  if is_empty_string (url c)
  then Rejected (AppAuthError (JStr "A URL must be provided."))
  else
    promise_then (net c) (fun response =>
      if status_ok response then
        match body response with
        | Some j => Fulfilled j
        | None => Rejected SyntaxError
        end
      else Rejected (AppAuthError (JStr (Z_to_string (status response))))).

Definition BaseTokenRequestHandler : TokenRequestHandler := {|
  performTokenRequest configuration request net :=
    promise_then
      (FetchRequestor_xhr net
         {| url := tokenEndpoint configuration;
            method := Some "POST";
            headers := [("Content-Type", "application/x-www-form-urlencoded");
                        ("Accept",
                         "application/json, text/javascript, */*; q=0.01")];
            fetch_body := Some request |})
      (fun response =>
         match response with
         | JNull => Rejected TypeError
         | _ =>
             match get_prop (Some response) "error" with
             | None => Fulfilled response
             | Some e => Rejected (AppAuthError e)
             end
         end)
|}.

(** Only the members of the library's response and error classes that the
    manager reads. *)
Record AuthorizationResponse : Type := {
  code : string;
  response_state : string
}.

Record AuthorizationError : Type := {
  error : string;
  errorDescription : option string
}.

(** An [AuthorizationRequest] as the manager constructs it:
    [new AuthorizationRequest(json, crypto, usePkce)]. [request_object] is
    the identity of the object made by [new]; [crypto] is [None] when
    [undefined] is passed. With [usePkce] false the library generates no code
    verifier and no code challenge for the request. *)
Record AuthorizationRequest : Type := {
  request_object : nat;
  client_id : string;
  redirect_uri : string;
  response_type : string;
  scope : string;
  crypto : option unit;
  usePkce : bool
}.

(** The request handlers the manager instantiates: [new PopupRequestHandler()]
    and [new RedirectRequestHandler(undefined, new NoHashQueryStringUtils())]. *)
Inductive HandlerClass : Type :=
| PopupRequestHandler
| RedirectRequestHandler.

Record AuthorizationRequestHandler : Type := {
  handler_class : HandlerClass;
  handler_object : nat
}.

(** ** The heap *)

(** An element of the scope array: a string, or an array of strings (what
    [push] appends when it is handed an array). *)
Inductive ScopeEntry : Type :=
| ScopeStr (s : string)
| ScopeArr (l : list string).

(** References to arrays. The manager never allocates one: its [scopes]
    field is assigned the module-level array itself. *)
Inductive ArrayRef : Type :=
| DEFAULT_SCOPES.

(** Calls out of the manager, in the order they happen. *)
Inductive Event : Type :=
| PerformAuthorizationRequest
    (handler : AuthorizationRequestHandler)
    (cfg : AuthorizationServiceConfiguration)
    (request : AuthorizationRequest)
| CompleteAuthorizationRequestIfPossible (handler : AuthorizationRequestHandler)
| CallFulfill (promise : nat) (value : AuthorizationResponse)
| CallReject (promise : nat) (reason : JsError).

Record Heap : Type := {
  default_scopes : list ScopeEntry;  (* contents of the array DEFAULT_SCOPES *)
  promises : list (PromiseState AuthorizationResponse);
  allocated : nat;                   (* objects made so far by [new] *)
  trace : list Event
}.

(** The heap when the module has just been loaded:
    [const DEFAULT_SCOPES = ['openid']]. *)
Definition initial_heap : Heap := {|
  default_scopes := [ScopeStr "openid"];
  promises := [];
  allocated := 0;
  trace := []
|}.

Definition deref (r : ArrayRef) (h : Heap) : list ScopeEntry :=
  match r with DEFAULT_SCOPES => default_scopes h end.

(** [r.push(x)] *)
Definition array_push (r : ArrayRef) (x : ScopeEntry) (h : Heap) : Heap :=
  match r with
  | DEFAULT_SCOPES =>
      {| default_scopes := default_scopes h ++ [x];
         promises := promises h;
         allocated := allocated h;
         trace := trace h |}
  end.

Definition ScopeEntry_toString (e : ScopeEntry) : string :=
  match e with
  | ScopeStr s => s
  | ScopeArr l => join "," l
  end.

(** [r.join(sep)] *)
Definition array_join (r : ArrayRef) (sep : string) (h : Heap) : string :=
  join sep (map ScopeEntry_toString (deref r h)).

Definition emit (e : Event) (h : Heap) : Heap :=
  {| default_scopes := default_scopes h;
     promises := promises h;
     allocated := allocated h;
     trace := trace h ++ [e] |}.

(** [new C(...)]: the identity of the new object. *)
Definition new_object (h : Heap) : nat * Heap :=
  (allocated h,
   {| default_scopes := default_scopes h;
      promises := promises h;
      allocated := S (allocated h);
      trace := trace h |}).

(** [new Promise(executor)]: the new promise is pending. *)
Definition new_Promise (h : Heap) : nat * Heap :=
  (length (promises h),
   {| default_scopes := default_scopes h;
      promises := promises h ++ [Pending];
      allocated := allocated h;
      trace := trace h |}).

(** The resolving functions of promise [p]: they settle a pending promise
    and do nothing to a settled one. *)
Definition settle (p : nat) (s : PromiseState AuthorizationResponse) (h : Heap)
  : Heap :=
  {| default_scopes := default_scopes h;
     promises :=
       match promises h !! p with
       | Some Pending => <[p := s]> (promises h)
       | _ => promises h
       end;
     allocated := allocated h;
     trace := trace h |}.

Definition call_fulfill (p : nat) (v : AuthorizationResponse) (h : Heap) : Heap :=
  emit (CallFulfill p v) (settle p (Fulfilled v) h).

Definition call_reject (p : nat) (e : JsError) (h : Heap) : Heap :=
  emit (CallReject p e) (settle p (Rejected e) h).

Definition promise_state (h : Heap) (p : nat)
  : PromiseState AuthorizationResponse :=
  match promises h !! p with Some s => s | None => Pending end.

(** ** class OAuthManager *)

Definition BITSKI_USER_API_HOST : string := "https://www.bitski.com/v1".

Definition DEFAULT_CONFIGURATION : AuthorizationServiceConfiguration := {|
  authorizationEndpoint := "https://account.bitski.com/oauth2/auth";
  revocationEndpoint := "";
  tokenEndpoint := "https://account.bitski.com/oauth2/token";
  userInfoEndpoint := Some "https://account.bitski.com/userinfo"
|}.

(** [pendingResolver] holds the two resolving functions of one promise and
    is kept as that promise; [None] is [undefined]. *)
Record OAuthManager : Type := {
  configuration : AuthorizationServiceConfiguration;
  clientId : string;
  redirectUri : string;
  tokenHandler : TokenRequestHandler;
  authHandler : option AuthorizationRequestHandler;
  pendingResolver : option nat;
  scopes : ArrayRef
}.

Record Options : Type := {
  opt_clientId : string;
  opt_redirectUri : string;
  opt_configuration : option AuthorizationServiceConfiguration;
  opt_additionalScopes : option (list string)
}.

(** [a || b] where [a] is an object or [undefined]: objects, and so every
    array, the empty one too, are truthy. *)
Definition or_default {A} (a : option A) (b : A) : A :=
  match a with Some x => x | None => b end.

Definition constructor (options : Options) (h : Heap) : OAuthManager * Heap :=
  let additionalScopes := or_default (opt_additionalScopes options) ["offline"] in
  let this_scopes := DEFAULT_SCOPES in
  let h := array_push this_scopes (ScopeArr additionalScopes) h in
  ({| clientId := opt_clientId options;
      redirectUri := opt_redirectUri options;
      configuration := or_default (opt_configuration options) DEFAULT_CONFIGURATION;
      scopes := this_scopes;
      tokenHandler := BaseTokenRequestHandler;
      authHandler := None;
      pendingResolver := None |}, h).

Definition set_pending (this : OAuthManager) (p : option nat) : OAuthManager :=
  {| configuration := configuration this;
     clientId := clientId this;
     redirectUri := redirectUri this;
     tokenHandler := tokenHandler this;
     authHandler := authHandler this;
     pendingResolver := p;
     scopes := scopes this |}.

Definition set_authHandler (this : OAuthManager)
  (a : AuthorizationRequestHandler) : OAuthManager :=
  {| configuration := configuration this;
     clientId := clientId this;
     redirectUri := redirectUri this;
     tokenHandler := tokenHandler this;
     authHandler := Some a;
     pendingResolver := pendingResolver this;
     scopes := scopes this |}.

Definition createAuthRequest (this : OAuthManager) (h : Heap)
  : AuthorizationRequest * Heap :=
  let (o, h) := new_object h in
  ({| request_object := o;
      client_id := clientId this;
      redirect_uri := redirectUri this;
      response_type := RESPONSE_TYPE_CODE;
      scope := array_join (scopes this) " " h;
      crypto := None;
      usePkce := false |}, h).

Definition createRefreshTokenRequest (this : OAuthManager) (refreshToken : string)
  : TokenRequest :=
  {| tr_client_id := clientId this;
     tr_grant_type := GRANT_TYPE_REFRESH_TOKEN;
     tr_redirect_uri := redirectUri this;
     tr_code := None;
     tr_refresh_token := Some refreshToken |}.

Definition createTokenRequest (this : OAuthManager) (code : string)
  : TokenRequest :=
  {| tr_client_id := clientId this;
     tr_code := Some code;
     tr_grant_type := GRANT_TYPE_AUTHORIZATION_CODE;
     tr_redirect_uri := redirectUri this;
     tr_refresh_token := None |}.

Definition requestAccessToken (this : OAuthManager) (code : string)
  (net : Network) : PromiseState TokenResponse :=
  let request := createTokenRequest this code in
  performTokenRequest (tokenHandler this) (configuration this) request net.

Definition refreshAccessToken (this : OAuthManager) (refreshToken : string)
  (net : Network) : PromiseState TokenResponse :=
  let request := createRefreshTokenRequest this refreshToken in
  performTokenRequest (tokenHandler this) (configuration this) request net.

(** [new Error(v)] for a value that may be [undefined]. *)
Definition new_Error_of (v : jsval) : JsError :=
  match v with
  | Some j => new_Error j
  | None => Error ""
  end.

Definition parseResponse (response : Response) : PromiseState json :=
  promise_then
    (match body response with
     | Some json => Fulfilled json
     | None => Rejected (Error "Unknown error. Could not parse error response")
     end)
    (fun parsed =>
       let json := Some parsed in
       if status_ok response then
         Fulfilled parsed
       else if truthy json && truthy (get_prop json "error")
                 && truthy (get_prop (get_prop json "error") "message") then
         Rejected (new_Error_of (get_prop (get_prop json "error") "message"))
       else if truthy json && truthy (get_prop json "error") then
         Rejected (new_Error_of (get_prop json "error"))
       else
         Rejected (Error "Unknown error")).

(** The methods that call [fetch] return the calls they made, in order, with
    the state their promise reaches. *)
Definition requestSignOut (this : OAuthManager) (accessToken : string)
  (net : Network) : list FetchCall * PromiseState json :=
  let call :=
    {| url := String.append BITSKI_USER_API_HOST "/logout";
       headers := [("Accept", "application/json");
                   ("Authorization", String.append "Bearer " accessToken);
                   ("Content-Type", "application/json")];
       method := Some "POST";
       fetch_body := None |} in
  ([call], promise_then (net call) parseResponse).

(** [!s] is true for [undefined] and for the empty string. *)
Definition string_truthy (s : option string) : bool :=
  match s with
  | Some s => negb (is_empty_string s)
  | None => false
  end.

Definition requestUserInfo (this : OAuthManager) (accessToken : string)
  (net : Network) : list FetchCall * PromiseState UserInfoResponse :=
  let userInfoEndpoint := userInfoEndpoint (configuration this) in
  if negb (string_truthy userInfoEndpoint) then
    ([], Rejected (Error "Could not find userinfo endpoint"))
  else
    let call :=
      {| url := or_default userInfoEndpoint "";
         headers := [("Accept", "application/json");
                     ("Authorization", String.append "Bearer " accessToken)];
         method := None;
         fetch_body := None |} in
    ([call],
     promise_then (promise_then (net call) parseResponse)
       (fun parsed => Fulfilled parsed)).

(** The promise a sign-in method returns: the promise it created, or that
    promise followed by
    [.then((response) => this.requestAccessToken(response.code))]. *)
Inductive ReturnedPromise : Type :=
| ThenRequestAccessToken (promise : nat)
| Bare (promise : nat).

Definition created_promise (r : ReturnedPromise) : nat :=
  match r with ThenRequestAccessToken p => p | Bare p => p end.

Inductive SignInValue : Type :=
| Authorization (response : AuthorizationResponse)
| Tokens (tokens : TokenResponse).

(** The state of a returned promise, given the heap and the network its
    continuation runs against. *)
Definition returned_state (this : OAuthManager) (net : Network) (h : Heap)
  (r : ReturnedPromise) : PromiseState SignInValue :=
  match r with
  | ThenRequestAccessToken p =>
      promise_then (promise_state h p) (fun response =>
        promise_then (requestAccessToken this (code response) net)
          (fun t => Fulfilled (Tokens t)))
  | Bare p =>
      promise_then (promise_state h p)
        (fun response => Fulfilled (Authorization response))
  end.

Definition signInPopup (this : OAuthManager) (h : Heap)
  : ReturnedPromise * OAuthManager * Heap :=
  let (promise, h) := new_Promise h in
  let this := set_pending this (Some promise) in
  let (o, h) := new_object h in
  let handler := {| handler_class := PopupRequestHandler; handler_object := o |} in
  let this := set_authHandler this handler in
  let (request, h) := createAuthRequest this h in
  let h := emit (PerformAuthorizationRequest handler (configuration this) request) h in
  (ThenRequestAccessToken promise, this, h).

Definition signInRedirect (this : OAuthManager) (h : Heap)
  : ReturnedPromise * OAuthManager * Heap :=
  let (promise, h) := new_Promise h in
  let this := set_pending this (Some promise) in
  let (_, h) := new_object h in  (* new NoHashQueryStringUtils() *)
  let (o, h) := new_object h in
  let handler := {| handler_class := RedirectRequestHandler; handler_object := o |} in
  let this := set_authHandler this handler in
  let (request, h) := createAuthRequest this h in
  let h := emit (PerformAuthorizationRequest handler (configuration this) request) h in
  (Bare promise, this, h).

Definition redirectCallback (this : OAuthManager) (h : Heap)
  : ReturnedPromise * OAuthManager * Heap :=
  let (promise, h) := new_Promise h in
  let this := set_pending this (Some promise) in
  let (_, h) := new_object h in  (* new NoHashQueryStringUtils() *)
  let (o, h) := new_object h in
  let handler := {| handler_class := RedirectRequestHandler; handler_object := o |} in
  let this := set_authHandler this handler in
  let h := emit (CompleteAuthorizationRequestIfPossible handler) h in
  (ThenRequestAccessToken promise, this, h).

(** The listener the constructor registers on the notifier; the request
    handlers reach the manager through it and through nothing else. [None]
    stands for a [null] response or error. *)
Definition didCompleteAuthorizationFlow (this : OAuthManager)
  (request : option AuthorizationRequest)
  (response : option AuthorizationResponse)
  (errorResponse : option AuthorizationError)
  (h : Heap) : OAuthManager * Heap :=
  match pendingResolver this with
  | Some resolver =>
      match response with
      | Some response =>
          let h := call_fulfill resolver response h in
          (set_pending this None, h)
      | None =>
          match errorResponse with
          | Some errorResponse =>
              let error := Error (error errorResponse) in
              let h := call_reject resolver error h in
              (set_pending this None, h)
          | None => (this, h)
          end
      end
  | None => (this, h)
  end.

(** ** Driving the manager *)

(** One notification of the authorization listener. *)
Record Notification : Type := {
  n_request : option AuthorizationRequest;
  n_response : option AuthorizationResponse;
  n_error : option AuthorizationError
}.

Definition notify (n : Notification) (s : OAuthManager * Heap)
  : OAuthManager * Heap :=
  didCompleteAuthorizationFlow (fst s) (n_request n) (n_response n) (n_error n)
    (snd s).

(** A notification settles a pending entry when it carries a response or an
    error. *)
Definition carries_result (n : Notification) : bool :=
  match n_response n, n_error n with
  | None, None => false
  | _, _ => true
  end.

Definition notify_all (ns : list Notification) (s : OAuthManager * Heap)
  : OAuthManager * Heap :=
  fold_left (fun s n => notify n s) ns s.

(** The two methods that start an authorization flow. *)
Inductive SignIn : Type :=
| Popup
| Redirect.

Definition signIn (k : SignIn) (this : OAuthManager) (h : Heap)
  : ReturnedPromise * OAuthManager * Heap :=
  match k with
  | Popup => signInPopup this h
  | Redirect => signInRedirect this h
  end.

(** A run of sign-in calls on one manager, each on the state the previous
    one left. *)
Definition signIn_all (ks : list SignIn) (s : OAuthManager * Heap)
  : OAuthManager * Heap :=
  fold_left (fun s k => let '(_, this, h) := signIn k (fst s) (snd s) in (this, h))
    ks s.

(** The authorization requests handed to request handlers so far. *)
Definition requests_of (t : list Event) : list AuthorizationRequest :=
  flat_map (fun e =>
              match e with
              | PerformAuthorizationRequest _ _ request => [request]
              | _ => []
              end) t.

(** How often the resolving functions of promise [p] were called. *)
Definition settle_calls (p : nat) (t : list Event) : nat :=
  length (List.filter (fun e =>
                    match e with
                    | CallFulfill q _ => Nat.eqb p q
                    | CallReject q _ => Nat.eqb p q
                    | _ => false
                    end) t).

(** Everything the module's code can do to the heap, from the moment the
    module is loaded: construct a manager, or call a method of, or notify,
    some manager. The managers themselves are left arbitrary. *)
Inductive reachable : Heap -> Prop :=
| reach_initial : reachable initial_heap
| reach_constructor options h :
    reachable h -> reachable (snd (constructor options h))
| reach_signIn k this h :
    reachable h -> reachable (snd (signIn k this h))
| reach_redirectCallback this h :
    reachable h -> reachable (snd (redirectCallback this h))
| reach_notify n this h :
    reachable h -> reachable (snd (notify n (this, h))).

(** ** class Bitski: which callback type to assume *)

Module Bitski.

(** A browser window, by the identities of the window objects involved:
    [w.parent] is [w] itself for a top-level window; [w.opener] is [null]
    ([None]) or the window that opened [w]. *)
Record Window : Type := {
  window_object : nat;
  parent : nat;
  opener : option nat
}.

Section IntegrationType.

(** The enumeration [OAuthProviderIntegrationType] is declared in
    [./auth/auth-provider]; the class names three of its members, and [||]
    asks whether a member's value is truthy. *)
Variable OAuthProviderIntegrationType : Type.
Variables SILENT POPUP REDIRECT : OAuthProviderIntegrationType.
Variable member_truthy : OAuthProviderIntegrationType -> bool.

Definition assumedCallbackType (w : Window) : OAuthProviderIntegrationType :=
  if negb (Nat.eqb (parent w) (window_object w)) then
    SILENT
  else if match opener w with Some _ => true | None => false end then
    POPUP
  else
    REDIRECT.

(** [signInCallback]: the arguments it hands to
    [this.authProvider.signInCallback]. *)
Definition signInCallback
  (authenticationIntegrationType : option OAuthProviderIntegrationType)
  (url : option string) (window : Window)
  : OAuthProviderIntegrationType * option string :=
  (match authenticationIntegrationType with
   | Some t => if member_truthy t then t else assumedCallbackType window
   | None => assumedCallbackType window
   end, url).

End IntegrationType.

(** What the specification calls a framed window, and one with an opener. *)
Definition framed (w : Window) : Prop := parent w <> window_object w.
Definition has_opener (w : Window) : Prop := opener w <> None.

(** *** Provider engines *)

(** [Map<string, V>], keys in insertion order: [get], and [set], which
    replaces the value of a key already there and appends a new key. *)
Fixpoint Map_get {V} (k : string) (m : list (string * V)) : option V :=
  match m with
  | [] => None
  | (k', v) :: r => if String.eqb k k' then Some v else Map_get k r
  end.

Fixpoint Map_set {V} (k : string) (v : V) (m : list (string * V))
  : list (string * V) :=
  match m with
  | [] => [(k, v)]
  | (k', v') :: r =>
      if String.eqb k k' then (k, v) :: r else (k', v') :: Map_set k v r
  end.

(** The subproviders the class instantiates, with the constructor arguments
    it gives them. The [authProvider] argument of [AuthenticatedFetchSubprovider]
    and [IFrameSubprovider] is always the instance's own provider and is left
    out; [SubscriptionSubprovider] carries the engine its [data] events are
    forwarded to. *)
Inductive Subprovider : Type :=
| DefaultFixtures
| NonceTrackerSubprovider
| SanitizingSubprovider
| CacheSubprovider
| SubscriptionSubprovider (forwards_data_to : nat)
| InflightCacheSubprovider
| AuthenticatedFetchSubprovider (rpcUrl : string) (debug : bool)
    (defaultHeaders : list (string * string))
| IFrameSubprovider (host : string) (network : string)
| RpcSource (rpcUrl : string)
| LocalDialogSubprovider.

(** The calls the class makes on an engine. [OnError] is
    [engine.on('error', listener)] with the listener of [createEngine]. *)
Inductive EngineCall : Type :=
| AddProvider (p : Subprovider)
| OnError
| Start
| Stop.

(** A [ProviderEngine] (library web3-provider-engine), as the object made by
    [new ProviderEngine(options)] and the calls made on it since, in order. *)
Record ProviderEngine : Type := {
  engine_object : nat;
  engine_options : jsval;
  engine_calls : list EngineCall
}.

Definition call (c : EngineCall) (engine : ProviderEngine) : ProviderEngine :=
  {| engine_object := engine_object engine;
     engine_options := engine_options engine;
     engine_calls := engine_calls engine ++ [c] |}.

(** Whether the engine was last started or last stopped. *)
Definition running (engine : ProviderEngine) : bool :=
  fold_left (fun r c =>
               match c with
               | Start => true
               | Stop => false
               | _ => r
               end) (engine_calls engine) false.

(** The providers added to an engine, in the order of the chain. *)
Definition providers (engine : ProviderEngine) : list Subprovider :=
  flat_map (fun c => match c with AddProvider p => [p] | _ => [] end)
    (engine_calls engine).

Definition ENABLE_CACHE : bool := true.

(** What the constructor hands to [new OpenidAuthProvider(...)]; the provider
    is kept as these arguments. *)
Record AuthProvider : Type := {
  ap_clientId : string;
  ap_redirectUri : string;
  ap_postLogoutRedirectUri : string;
  ap_otherSettings : jsval
}.

Record Bitski : Type := {
  engines : list (string * ProviderEngine);
  clientId : string;
  authProvider : AuthProvider
}.

(** [s || d] for a string [s] that may be [undefined]. *)
Definition string_or (s : option string) (d : string) : string :=
  if string_truthy s then or_default s d else d.

(** [new Bitski(clientId, redirectUri, postLogoutRedirectUri, otherSettings)]
    in a window whose [location.href] is [href]. *)
Definition constructor (href : string) (clientId : string)
  (redirectUri postLogoutRedirectUri : option string) (otherSettings : jsval)
  : Bitski :=
  {| engines := [];
     clientId := clientId;
     authProvider :=
       {| ap_clientId := clientId;
          ap_redirectUri := string_or redirectUri href;
          ap_postLogoutRedirectUri := string_or postLogoutRedirectUri href;
          ap_otherSettings := otherSettings |} |}.

Definition set_engines (this : Bitski) (m : list (string * ProviderEngine))
  : Bitski :=
  {| engines := m;
     clientId := clientId this;
     authProvider := authProvider this |}.

Definition addDefaultSubproviders (engine : ProviderEngine)
  (enableCache : option bool) : ProviderEngine :=
  let enableCache := or_default enableCache ENABLE_CACHE in
  let engine := call (AddProvider DefaultFixtures) engine in
  let engine := call (AddProvider NonceTrackerSubprovider) engine in
  let engine := call (AddProvider SanitizingSubprovider) engine in
  let engine :=
    if enableCache then call (AddProvider CacheSubprovider) engine else engine in
  let engine :=
    call (AddProvider (SubscriptionSubprovider (engine_object engine))) engine in
  let engine :=
    if enableCache then call (AddProvider InflightCacheSubprovider) engine
    else engine in
  engine.

(** The listener [createEngine] registers for the engine's [error] event,
    applied to an error whose [message] is the given string. *)
Definition error_listener (message : string) (engine : ProviderEngine)
  : ProviderEngine :=
  if String.eqb message "Not signed in" then call Stop engine else engine.

(** The engine emits [error]: every listener registered by [OnError] runs. *)
Definition emit_error (message : string) (engine : ProviderEngine)
  : ProviderEngine :=
  fold_left (fun e c =>
               match c with
               | OnError => error_listener message e
               | _ => e
               end) (engine_calls engine) engine.

(** The methods that make an engine take the number of objects made so far
    and return it updated: it names the new engine. *)
Definition createEngine (fetchSubprovider authorizationSubprovider : Subprovider)
  (options : jsval) (this : Bitski) (fresh : nat) : ProviderEngine * nat :=
  let engine :=
    {| engine_object := fresh; engine_options := options; engine_calls := [] |} in
  let engine := addDefaultSubproviders engine None in
  let engine := call (AddProvider authorizationSubprovider) engine in
  let engine := call (AddProvider fetchSubprovider) engine in
  let engine := call OnError engine in
  let engine := call Start engine in
  (engine, S fresh).

Definition createBitskiEngine (networkName : option string) (options : jsval)
  (this : Bitski) (fresh : nat) : ProviderEngine * nat :=
  let network := string_or networkName "mainnet" in
  let fetchSubprovider :=
    AuthenticatedFetchSubprovider
      (String.append "https://api.bitski.com/v1/web3/" network)
      false
      [("X-API-KEY", clientId this); ("X-CLIENT-ID", clientId this)] in
  let iframeSubprovider :=
    IFrameSubprovider "https://www.bitski.com" (string_or networkName "mainnet") in
  createEngine fetchSubprovider iframeSubprovider options this fresh.

Definition createThirdPartyEngine (rpcUrl : string) (options : jsval)
  (this : Bitski) (fresh : nat) : ProviderEngine * nat :=
  let fetchSubprovider := RpcSource rpcUrl in
  let authorizationProvider := LocalDialogSubprovider in
  createEngine fetchSubprovider authorizationProvider options this fresh.

(** [getProvider]: the engine it returns, the instance and the object count
    afterwards. An engine found in the map is the very object stored there:
    [start()] on it shows in the map. *)
Definition getProvider (networkName : option string) (options : jsval)
  (this : Bitski) (fresh : nat) : ProviderEngine * Bitski * nat :=
  match Map_get (string_or networkName "mainnet") (engines this) with
  | Some existingProvider =>
      let existingProvider := call Start existingProvider in
      (existingProvider,
       set_engines this
         (Map_set (string_or networkName "mainnet") existingProvider
            (engines this)),
       fresh)
  | None =>
      let '(provider, fresh) :=
        match networkName with
        | None => createBitskiEngine networkName options this fresh
        | Some name =>
            if String.eqb name "mainnet" || String.eqb name "rinkeby"
               || String.eqb name "kovan"
            then createBitskiEngine networkName options this fresh
            else createThirdPartyEngine name options this fresh
        end in
      (provider,
       set_engines this
         (Map_set (string_or networkName "mainnet") provider (engines this)),
       fresh)
  end.

(** [signOut], as far as the engines go: [authProvider.signOut()] is the
    provider's business. *)
Definition signOut (this : Bitski) : Bitski :=
  set_engines this (map (fun kv => (fst kv, call Stop (snd kv))) (engines this)).

(** The engine stored under [key] emits an [error] event. *)
Definition engine_error (key : string) (message : string) (this : Bitski)
  : Bitski :=
  match Map_get key (engines this) with
  | Some engine =>
      set_engines this (Map_set key (emit_error message engine) (engines this))
  | None => this
  end.




(** The calls [createEngine] makes on a new engine [o] with the given
    authorization and fetch subproviders. *)
Definition setup_calls (o : nat) (authorization fetch : Subprovider)
  : list EngineCall :=
  [AddProvider DefaultFixtures; AddProvider NonceTrackerSubprovider;
   AddProvider SanitizingSubprovider; AddProvider CacheSubprovider;
   AddProvider (SubscriptionSubprovider o); AddProvider InflightCacheSubprovider;
   AddProvider authorization; AddProvider fetch; OnError; Start].

(** The subproviders every engine [o] starts its chain with. *)
Definition default_subproviders (o : nat) : list Subprovider :=
  [DefaultFixtures; NonceTrackerSubprovider; SanitizingSubprovider;
   CacheSubprovider; SubscriptionSubprovider o; InflightCacheSubprovider].

(** An engine as [createEngine] leaves it, started and stopped since. *)
Definition set_up (engine : ProviderEngine) : Prop :=
  exists authorization fetch later,
    engine_calls engine
    = setup_calls (engine_object engine) authorization fetch ++ later
    /\ Forall (fun c => c = Start \/ c = Stop) later.


(** *** The logger *)



End Bitski.

(** ** Notions used to state the properties, and example inputs *)

(** Options used in the examples below. *)
Definition example_options (additionalScopes : option (list string)) : Options :=
  {| opt_clientId := "client-id";
     opt_redirectUri := "https://app.example/callback";
     opt_configuration := None;
     opt_additionalScopes := additionalScopes |}.

(** The effect of one sign-in call, as far as the properties below need it. *)
Record signIn_effect (k : SignIn) (this : OAuthManager) (h : Heap)
  (r : ReturnedPromise) (this' : OAuthManager) (h' : Heap)
  (request : AuthorizationRequest) (handler : AuthorizationRequestHandler)
  : Prop := {
  eff_scopes : default_scopes h' = default_scopes h;
  eff_ref : scopes this' = scopes this;
  eff_promise : created_promise r = length (promises h);
  eff_promises : promises h' = promises h ++ [Pending];
  eff_pending : pendingResolver this' = Some (length (promises h));
  eff_handler : authHandler this' = Some handler;
  eff_handler_new : allocated h <= handler_object handler < allocated h';
  eff_trace :
    trace h' =
    trace h ++ [PerformAuthorizationRequest handler (configuration this) request];
  eff_scope : scope request = array_join (scopes this) " " h;
  eff_pkce : usePkce request = false;
  eff_crypto : crypto request = None;
  eff_request_new : allocated h <= request_object request < allocated h'
}.

(** What a request built during a run of sign-in calls looks like, relative
    to the state [s] the run started in and the state [s'] it ended in. *)
Definition built_during (s s' : OAuthManager * Heap) (r : AuthorizationRequest)
  : Prop :=
  scope r = array_join (scopes (fst s)) " " (snd s)
  /\ usePkce r = false
  /\ crypto r = None
  /\ allocated (snd s) <= request_object r < allocated (snd s').

(** The scope parameter of the requests a run of sign-in calls builds. *)
Definition scopes_requested (ks : list SignIn) (s : OAuthManager * Heap)
  : list string :=
  map scope
    (skipn (length (requests_of (trace (snd s))))
       (requests_of (trace (snd (signIn_all ks s))))).

(** What a notification that carries a result settles a promise to. *)
Definition outcome_of (response : option AuthorizationResponse)
  (errorResponse : option AuthorizationError)
  : PromiseState AuthorizationResponse :=
  match response, errorResponse with
  | Some r, _ => Fulfilled r
  | None, Some e => Rejected (Error (error e))
  | None, None => Pending
  end.

Definition example_response : AuthorizationResponse :=
  {| code := "SplxlOBeZQQYbYS6WxSbIA"; response_state := "af0ifjsldkj" |}.

Definition example_error : AuthorizationError :=
  {| error := "access_denied"; errorDescription := None |}.

(** A manager on the freshly loaded module, after one [signInPopup()]. *)
Definition example_pending : OAuthManager * Heap :=
  let s := constructor (example_options None) initial_heap in
  let '(_, this, h) := signInPopup (fst s) (snd s) in
  (this, h).

(** A network on which every [fetch] fails. *)
Definition offline : Network := fun _ => Rejected TypeError.

Definition invalid_grant_400 : Response :=
  {| status := 400;
     body := Some (JObj [("error", JObj [("message", JStr "invalid_grant")])]) |}.

Definition unparseable_200 : Response :=
  {| status := 200; body := None |}.

(** A network whose every reply is [response]. *)
Definition replying (response : Response) : Network :=
  fun _ => Fulfilled response.

Definition no_userinfo : AuthorizationServiceConfiguration :=
  {| authorizationEndpoint := "https://account.example/oauth2/auth";
     tokenEndpoint := "https://account.example/oauth2/token";
     revocationEndpoint := "";
     userInfoEndpoint := None |}.

(** ** Runs of one manager *)

(** What can happen to a manager between its construction and now. *)
Inductive ManagerOp : Type :=
| DoSignIn (k : SignIn)
| DoRedirectCallback
| DoNotify (n : Notification).

Definition step (op : ManagerOp) (s : OAuthManager * Heap)
  : OAuthManager * Heap :=
  match op with
  | DoSignIn k =>
      let '(_, this, h) := signIn k (fst s) (snd s) in (this, h)
  | DoRedirectCallback =>
      let '(_, this, h) := redirectCallback (fst s) (snd s) in (this, h)
  | DoNotify n => notify n s
  end.

Definition run (ops : list ManagerOp) (s : OAuthManager * Heap)
  : OAuthManager * Heap :=
  fold_left (fun s op => step op s) ops s.

Definition sign_ins (ops : list ManagerOp) : nat :=
  length (List.filter (fun op => match op with DoSignIn _ => true | _ => false end)
            ops).

(** The pending entry, when there is one, is a promise of the heap that is
    not settled. *)
Definition pending_ok (s : OAuthManager * Heap) : Prop :=
  forall p,
    pendingResolver (fst s) = Some p ->
    p < length (promises (snd s)) /\ promise_state (snd s) p = Pending.

(** No promise has had its resolving functions called twice, and the settled
    promises are those that had them called. *)
Definition resolver_calls_ok (h : Heap) : Prop :=
  forall p,
    settle_calls p (trace h) <= 1
    /\ (is_settled (promise_state h p) = true <-> settle_calls p (trace h) = 1).

(** Constructing one manager after the other. *)
Definition construct_all (os : list Options) (h : Heap) : Heap :=
  fold_left (fun h o => snd (constructor o h)) os h.

(** * Properties *)

(** ** What one sign-in call does to the state *)

Lemma requests_of_app t1 t2 :
  requests_of (t1 ++ t2) = requests_of t1 ++ requests_of t2.
Proof. unfold requests_of. apply flat_map_app. Qed.

Lemma signIn_does k this h :
  exists request handler,
    signIn_effect k this h
      (fst (fst (signIn k this h))) (snd (fst (signIn k this h)))
      (snd (signIn k this h)) request handler.
Proof.
  destruct k; cbn; eexists _, _; split; try reflexivity; simpl; lia.
Qed.

Lemma signIn_all_snoc ks k s :
  signIn_all (ks ++ [k]) s =
  (snd (fst (signIn k (fst (signIn_all ks s)) (snd (signIn_all ks s)))),
   snd (signIn k (fst (signIn_all ks s)) (snd (signIn_all ks s)))).
Proof.
  unfold signIn_all. rewrite fold_left_app. cbn.
  destruct (signIn k _ _) as [[r this'] h']. reflexivity.
Qed.

Lemma signIn_all_allocated ks s :
  allocated (snd s) <= allocated (snd (signIn_all ks s)).
Proof.
  induction ks as [|k ks IH] using rev_ind; [cbn; lia|].
  rewrite signIn_all_snoc. cbn [snd].
  destruct (signIn_does k (fst (signIn_all ks s)) (snd (signIn_all ks s)))
    as (request & handler & E).
  pose proof (eff_request_new _ _ _ _ _ _ _ _ E). lia.
Qed.

(** ** Scopes *)

Lemma split_on_openid (l : list string) :
  exists rest, split_on " "%char (join " " ("openid" :: l)) = "openid" :: rest.
Proof.
  destruct l as [|x r].
  - exists []. reflexivity.
  - cbn [join]. cbn. eexists. reflexivity.
Qed.

Lemma reachable_openid h :
  reachable h -> exists rest, default_scopes h = ScopeStr "openid" :: rest.
Proof.
  induction 1 as [|options h _ [rest IH]|k this h _ [rest IH]
                  |this h _ [rest IH]|n this h _ [rest IH]].
  - exists []. reflexivity.
  - cbn. rewrite IH. eexists. reflexivity.
  - destruct (signIn_does k this h) as (request & handler & E).
    rewrite (eff_scopes _ _ _ _ _ _ _ _ E). eauto.
  - cbn. eauto.
  - unfold notify, didCompleteAuthorizationFlow. cbn.
    destruct (pendingResolver this); [|eauto].
    destruct (n_response n); [cbn; eauto|].
    destruct (n_error n); cbn; eauto.
Qed.

Lemma array_join_scopes r sep h1 h2 :
  default_scopes h1 = default_scopes h2 ->
  array_join r sep h1 = array_join r sep h2.
Proof. unfold array_join. destruct r. cbn. intros ->. reflexivity. Qed.

Lemma signIn_all_requests ks s :
  exists new,
    requests_of (trace (snd (signIn_all ks s)))
    = requests_of (trace (snd s)) ++ new
    /\ length new = length ks
    /\ default_scopes (snd (signIn_all ks s)) = default_scopes (snd s)
    /\ scopes (fst (signIn_all ks s)) = scopes (fst s)
    /\ Forall (built_during s (signIn_all ks s)) new
    /\ NoDup (map request_object new).
Proof.
  induction ks as [|k ks IH] using rev_ind.
  - exists []. cbn. rewrite app_nil_r. repeat split; constructor.
  - destruct IH as (new & Hreq & Hlen & Hsc & Href & Hall & Hnd).
    rewrite signIn_all_snoc. cbn [fst snd].
    set (mid := signIn_all ks s) in *.
    destruct (signIn_does k (fst mid) (snd mid)) as (request & handler & E).
    destruct E as [E1 E2 _ _ _ _ _ E8 E9 E10 E11 E12].
    exists (new ++ [request]).
    rewrite E8, requests_of_app, Hreq. cbn [requests_of flat_map app].
    rewrite <- app_assoc, !length_app, Hlen, E1, E2, Hsc, Href.
    repeat split; try reflexivity.
    + apply Forall_app. split.
      * eapply List.Forall_impl; [|exact Hall].
        intros r (A & B & C & D). unfold built_during. cbn [fst snd].
        repeat split; try assumption; lia.
      * constructor; [|constructor].
        pose proof (signIn_all_allocated ks s) as Hle. fold mid in Hle.
        unfold built_during. cbn [fst snd].
        repeat split; try assumption; try lia.
        rewrite E9, Href. apply array_join_scopes. exact Hsc.
    + rewrite map_app. cbn [map]. apply NoDup_app. repeat split.
      * exact Hnd.
      * intros x Hx [Hy|[]]%list_elem_of_In. subst x.
        apply list_elem_of_In, in_map_iff in Hx. destruct Hx as (r & Hr & Hin).
        rewrite List.Forall_forall in Hall.
        destruct (Hall r Hin) as (_ & _ & _ & D). lia.
      * repeat constructor. intros []%list_elem_of_In.
Qed.

(** C1, counterexample. A manager constructed with
    [additionalScopes: ['openid']] on the freshly loaded module asks for
    ["openid openid"]: the scope [openid] is sent twice, nothing removes the
    duplicate before the array is joined. *)
Lemma scope_not_deduplicated :
  scopes_requested [Popup]
    (constructor (example_options (Some ["openid"])) initial_heap)
  = ["openid openid"]
  /\ scope_count "openid" "openid openid" = 2
  /\ ~ NoDup (scope_tokens "openid openid").
Proof.
  split; [reflexivity|]. split; [reflexivity|].
  intros H. cbn in H. inversion H as [|x l Hin _]; subst.
  apply Hin. constructor.
Qed.

(** The array is shared by every manager: constructing a second manager
    appends to the array the first one reads. *)
Example scope_after_second_constructor :
  let s1 := constructor (example_options None) initial_heap in
  let s2 := constructor (example_options (Some [])) (snd s1) in
  let s3 := constructor (example_options None) (snd s2) in
  scopes_requested [Popup] s1 = ["openid offline"]
  /\ scopes_requested [Popup] (fst s1, snd s2) = ["openid offline "]
  /\ scopes_requested [Popup] s2 = ["openid offline "]
  /\ scopes_requested [Popup] s3 = ["openid offline  offline"].
Proof. repeat split. Qed.

(** [push] is handed the array of additional scopes as one element, which
    [join] prints with commas. *)
Example scope_of_two_additional :
  scopes_requested [Popup]
    (constructor (example_options (Some ["email"; "profile"])) initial_heap)
  = ["openid email,profile"].
Proof. reflexivity. Qed.

Lemma scopes_requested_spec (ks : list SignIn) (s : OAuthManager * Heap) :
  length (scopes_requested ks s) = length ks
  /\ Forall (fun sc => sc = array_join (scopes (fst s)) " " (snd s))
       (scopes_requested ks s).
Proof.
  destruct (signIn_all_requests ks s) as (new & Hreq & Hlen & _ & _ & Hall & _).
  assert (Hnew : scopes_requested ks s = map scope new).
  { unfold scopes_requested. rewrite Hreq.
    rewrite skipn_app, Nat.sub_diag, skipn_all. reflexivity. }
  rewrite Hnew, length_map. split; [exact Hlen|].
  apply List.Forall_map.
  eapply List.Forall_impl; [|exact Hall]. intros r (A & _). exact A.
Qed.

(** C1, as amended. For every manager, in every state, and every run of
    sign-in calls on it: each authorization request built in the run carries
    as scope the space-join of the manager's scope array as it stood before
    the run, which the calls leave unchanged. So every request of the run
    asks for each scope exactly as many times as the first one does. *)
Theorem signIn_scope_unchanged (ks : list SignIn) (s : OAuthManager * Heap) :
  deref (scopes (fst (signIn_all ks s))) (snd (signIn_all ks s))
  = deref (scopes (fst s)) (snd s)
  /\ length (scopes_requested ks s) = length ks
  /\ Forall (fun sc => sc = array_join (scopes (fst s)) " " (snd s))
       (scopes_requested ks s)
  /\ Forall (fun sc => forall x,
               scope_count x sc
               = scope_count x (hd sc (scopes_requested ks s)))
       (scopes_requested ks s).
Proof.
  destruct (signIn_all_requests ks s) as (_ & _ & _ & Hsc & Href & _).
  destruct (scopes_requested_spec ks s) as (Hlen & Hsame).
  repeat split.
  - rewrite Href. destruct (scopes (fst s)). exact Hsc.
  - exact Hlen.
  - exact Hsame.
  - destruct (scopes_requested ks s) as [|sc0 l]; [constructor|].
    cbn [hd]. pose proof Hsame as Hsame'.
    apply List.Forall_inv in Hsame'.
    eapply List.Forall_impl; [|exact Hsame].
    intros sc -> x. rewrite <- Hsame'. reflexivity.
Qed.

(** C7. On every heap the module's code can produce, for every manager,
    constructed with whatever options ([additionalScopes: []] included), the
    scope array starts with ["openid"], and the request a sign-in call builds
    asks for the scope [openid]. *)
Theorem scope_contains_openid (h : Heap) (this : OAuthManager) (k : SignIn) :
  reachable h ->
  In (ScopeStr "openid") (deref (scopes this) h)
  /\ exists sc,
       scopes_requested [k] (this, h) = [sc]
       /\ In "openid" (scope_tokens sc).
Proof.
  intros Hr. destruct (reachable_openid h Hr) as [rest Hrest]. split.
  - destruct (scopes this). cbn. rewrite Hrest. left. reflexivity.
  - destruct (scopes_requested_spec [k] (this, h)) as (Hlen & Hall).
    destruct (scopes_requested [k] (this, h)) as [|sc [|? ?]]; try discriminate.
    exists sc. split; [reflexivity|].
    apply List.Forall_inv in Hall. cbn [fst snd] in Hall. subst sc.
    unfold array_join. destruct (scopes this). cbn [deref]. rewrite Hrest.
    cbn [map ScopeEntry_toString].
    destruct (split_on_openid (map ScopeEntry_toString rest)) as [r Hs].
    unfold scope_tokens. rewrite Hs. left. reflexivity.
Qed.

(** The case the specification singles out: a manager constructed with
    [additionalScopes: []] on the freshly loaded module. *)
Lemma scope_contains_openid_witness :
  let s := constructor (example_options (Some [])) initial_heap in
  reachable (snd s)
  /\ In (ScopeStr "openid") (deref (scopes (fst s)) (snd s))
  /\ exists sc,
       scopes_requested [Popup] (fst s, snd s) = [sc]
       /\ In "openid" (scope_tokens sc).
Proof.
  split.
  - apply reach_constructor, reach_initial.
  - apply (scope_contains_openid
             (snd (constructor (example_options (Some [])) initial_heap))
             (fst (constructor (example_options (Some [])) initial_heap))
             Popup).
    apply reach_constructor, reach_initial.
Defined.

(** ** Authorization requests *)

(** C8, counterexample. The requests built by a popup and by a redirect
    sign-in are both constructed with [usePkce] false: neither carries a
    code verifier or a code challenge. *)
Lemma request_without_pkce :
  map (fun r => (usePkce r, crypto r))
    (requests_of
       (trace (snd (signIn_all [Popup; Redirect]
                      (constructor (example_options None) initial_heap)))))
  = [(false, None); (false, None)].
Proof. reflexivity. Qed.

(** C8, as amended. Every sign-in call builds one authorization request, a
    new object: it did not exist before the run and no two calls of the run
    share it. Each request is constructed with PKCE switched off (third
    constructor argument [false], no crypto object), so that no code verifier
    is generated for it. *)
Theorem signIn_request_fresh (ks : list SignIn) (s : OAuthManager * Heap) :
  exists new,
    requests_of (trace (snd (signIn_all ks s)))
    = requests_of (trace (snd s)) ++ new
    /\ length new = length ks
    /\ NoDup (map request_object new)
    /\ Forall (fun r => allocated (snd s) <= request_object r
                        /\ usePkce r = false /\ crypto r = None) new.
Proof.
  destruct (signIn_all_requests ks s) as (new & Hreq & Hlen & _ & _ & Hall & Hnd).
  exists new. repeat split; try assumption.
  eapply List.Forall_impl; [|exact Hall].
  intros r (_ & B & C & D). repeat split; try assumption; lia.
Qed.

(** ** The pending entry *)

Lemma settle_calls_snoc p t e :
  settle_calls p (t ++ [e])
  = settle_calls p t + settle_calls p [e].
Proof. unfold settle_calls. rewrite List.filter_app, length_app. reflexivity. Qed.

Lemma settle_calls_one p e :
  match e with
  | CallFulfill q _ | CallReject q _ => q = p
  | _ => False
  end ->
  settle_calls p [e] = 1.
Proof.
  destruct e; intros H; try contradiction; subst;
    unfold settle_calls; cbn; rewrite Nat.eqb_refl; reflexivity.
Qed.

Lemma promise_state_settle_same p s h :
  p < length (promises h) ->
  promise_state h p = Pending ->
  promise_state (settle p s h) p = s.
Proof.
  unfold promise_state, settle. cbn. intros Hlt Hp.
  destruct (promises h !! p) as [st|] eqn:E.
  - subst st. rewrite list_lookup_insert_eq by exact Hlt. reflexivity.
  - apply lookup_ge_None in E. lia.
Qed.

Lemma promise_state_settle_other p q s h :
  p <> q ->
  promise_state (settle p s h) q = promise_state h q.
Proof.
  unfold promise_state, settle. cbn. intros Hne.
  destruct (promises h !! p) as [[| |]|]; try reflexivity.
  rewrite list_lookup_insert_ne by exact Hne. reflexivity.
Qed.

Lemma promise_state_emit e h p :
  promise_state (emit e h) p = promise_state h p.
Proof. reflexivity. Qed.

(** C2. When an invocation of [didCompleteAuthorizationFlow] finds a pending
    entry and carries a response or an error, it calls the entry's resolving
    function once and clears the entry; a second invocation, whatever it
    carries, changes nothing: the manager and the heap are the same, and the
    promise has been settled by exactly one call. *)
Theorem didComplete_twice (this : OAuthManager) (h : Heap) (p : nat)
  (req1 req2 : option AuthorizationRequest)
  (resp1 resp2 : option AuthorizationResponse)
  (err1 err2 : option AuthorizationError) :
  pendingResolver this = Some p ->
  resp1 <> None \/ err1 <> None ->
  let s1 := didCompleteAuthorizationFlow this req1 resp1 err1 h in
  let s2 := didCompleteAuthorizationFlow (fst s1) req2 resp2 err2 (snd s1) in
  pendingResolver (fst s1) = None
  /\ s2 = s1
  /\ settle_calls p (trace (snd s1)) = S (settle_calls p (trace h))
  /\ settle_calls p (trace (snd s2)) = S (settle_calls p (trace h))
  /\ (p < length (promises h) -> promise_state h p = Pending ->
      promise_state (snd s2) p = outcome_of resp1 err1).
Proof.
  intros Hp Hres s1 s2.
  assert (H1 : pendingResolver (fst s1) = None).
  { subst s1. unfold didCompleteAuthorizationFlow. rewrite Hp.
    destruct resp1; [reflexivity|]. destruct err1; [reflexivity|].
    destruct Hres; congruence. }
  assert (H2 : s2 = s1).
  { subst s2. unfold didCompleteAuthorizationFlow at 1. rewrite H1.
    destruct s1; reflexivity. }
  assert (H3 : settle_calls p (trace (snd s1)) = S (settle_calls p (trace h))).
  { subst s1. unfold didCompleteAuthorizationFlow. rewrite Hp.
    destruct resp1 as [r|]; [|destruct err1 as [e|]].
    - cbn [snd call_fulfill emit settle trace].
      rewrite settle_calls_snoc, settle_calls_one by reflexivity. lia.
    - cbn [snd call_reject emit settle trace].
      rewrite settle_calls_snoc, settle_calls_one by reflexivity. lia.
    - destruct Hres; congruence. }
  repeat split; try assumption.
  - rewrite H2. exact H3.
  - intros Hlt Hpend. rewrite H2. subst s1.
    unfold didCompleteAuthorizationFlow. rewrite Hp.
    destruct resp1 as [r|]; [|destruct err1 as [e|]].
    + cbn [snd]. unfold call_fulfill. rewrite promise_state_emit.
      apply promise_state_settle_same; assumption.
    + cbn [snd]. unfold call_reject. rewrite promise_state_emit.
      apply promise_state_settle_same; assumption.
    + destruct Hres; congruence.
Qed.

Lemma didComplete_twice_witness :
  let this := fst example_pending in
  let h := snd example_pending in
  let s1 :=
    didCompleteAuthorizationFlow this None (Some example_response) None h in
  let s2 :=
    didCompleteAuthorizationFlow (fst s1) None None (Some example_error) (snd s1) in
  pendingResolver this = Some 0
  /\ pendingResolver (fst s1) = None
  /\ s2 = s1
  /\ settle_calls 0 (trace (snd s1)) = S (settle_calls 0 (trace h))
  /\ settle_calls 0 (trace (snd s2)) = S (settle_calls 0 (trace h))
  /\ (0 < length (promises h) -> promise_state h 0 = Pending ->
      promise_state (snd s2) 0 = outcome_of (Some example_response) None).
Proof.
  split; [reflexivity|].
  apply (didComplete_twice (fst example_pending) (snd example_pending) 0
           None None (Some example_response) None None (Some example_error)).
  - reflexivity.
  - left. discriminate.
Defined.

Lemma notify_idle n s :
  carries_result n = false -> notify n s = s.
Proof.
  unfold carries_result, notify, didCompleteAuthorizationFlow.
  destruct s as [this h]. cbn [fst snd].
  destruct (n_response n); [discriminate|].
  destruct (n_error n); [discriminate|].
  destruct (pendingResolver this); reflexivity.
Qed.

Lemma notify_all_idle ns s :
  Forall (fun n => carries_result n = false) ns -> notify_all ns s = s.
Proof.
  induction 1 as [|n ns Hn _ IH]; [reflexivity|].
  cbn. rewrite (notify_idle n s Hn). exact IH.
Qed.

(** A notification carrying a result, arriving while promise [p] is the
    pending entry. *)
Lemma notify_settles this h p n :
  pendingResolver this = Some p ->
  carries_result n = true ->
  p < length (promises h) ->
  promise_state h p = Pending ->
  pendingResolver (fst (notify n (this, h))) = None
  /\ promise_state (snd (notify n (this, h))) p
     = outcome_of (n_response n) (n_error n)
  /\ (forall q, q <> p ->
        promise_state (snd (notify n (this, h))) q = promise_state h q
        /\ settle_calls q (trace (snd (notify n (this, h))))
           = settle_calls q (trace h)).
Proof.
  intros Hp Hn Hlt Hpend.
  unfold notify, didCompleteAuthorizationFlow, carries_result, outcome_of in *.
  cbn [fst snd]. rewrite Hp.
  destruct (n_response n) as [r|]; [|destruct (n_error n) as [e|]];
    try discriminate; cbn [fst snd]; (split; [reflexivity|]).
  - unfold call_fulfill. rewrite promise_state_emit. split.
    + apply promise_state_settle_same; assumption.
    + intros q Hq. rewrite promise_state_emit. split.
      * apply promise_state_settle_other. congruence.
      * cbn [emit settle trace]. rewrite settle_calls_snoc.
        unfold settle_calls at 2. cbn.
        destruct (Nat.eqb_spec q p); [contradiction|]. cbn. lia.
  - unfold call_reject. rewrite promise_state_emit. split.
    + apply promise_state_settle_same; assumption.
    + intros q Hq. rewrite promise_state_emit. split.
      * apply promise_state_settle_other. congruence.
      * cbn [emit settle trace]. rewrite settle_calls_snoc.
        unfold settle_calls at 2. cbn.
        destruct (Nat.eqb_spec q p); [contradiction|]. cbn. lia.
Qed.

Lemma promise_state_appended h h' :
  promises h' = promises h ++ [Pending] ->
  promise_state h' (length (promises h)) = Pending
  /\ forall q, q < length (promises h) -> promise_state h' q = promise_state h q.
Proof.
  intros E. unfold promise_state. rewrite E. split.
  - rewrite lookup_app_r by lia. rewrite Nat.sub_diag. reflexivity.
  - intros q Hq. rewrite lookup_app_l by lia. reflexivity.
Qed.

(** C4. A sign-in call made while the entry of an earlier flow is still
    pending replaces that entry by a new promise and the request handler by
    a new handler object. A completion notification that follows settles the
    new promise and clears the entry; the earlier promise is not touched: it
    stays pending, no resolving function of it is called, and whatever the
    first call returned stays pending with it. *)
Theorem signIn_supersedes (this : OAuthManager) (h : Heap) (p1 : nat)
  (k : SignIn) (n : Notification) :
  pendingResolver this = Some p1 ->
  p1 < length (promises h) ->
  promise_state h p1 = Pending ->
  (forall a, authHandler this = Some a -> handler_object a < allocated h) ->
  carries_result n = true ->
  let r2 := fst (fst (signIn k this h)) in
  let this2 := snd (fst (signIn k this h)) in
  let h2 := snd (signIn k this h) in
  let s3 := notify n (this2, h2) in
  pendingResolver this2 = Some (created_promise r2)
  /\ created_promise r2 <> p1
  /\ authHandler this2 <> authHandler this
  /\ promise_state h2 p1 = Pending
  /\ promise_state (snd s3) (created_promise r2)
     = outcome_of (n_response n) (n_error n)
  /\ pendingResolver (fst s3) = None
  /\ promise_state (snd s3) p1 = Pending
  /\ settle_calls p1 (trace (snd s3)) = settle_calls p1 (trace h)
  /\ (forall r1 m net,
        created_promise r1 = p1 -> returned_state m net (snd s3) r1 = Pending).
Proof.
  intros Hp Hlt Hpend Hold Hn r2 this2 h2 s3.
  destruct (signIn_does k this h) as (request & handler & E).
  fold r2 this2 h2 in E.
  destruct E as [_ _ Er Eps Epend Eh Ehn Etr _ _ _ _].
  destruct (promise_state_appended h h2 Eps) as [Hnew Hkeep].
  assert (Hne : created_promise r2 <> p1) by lia.
  assert (Hp1 : promise_state h2 p1 = Pending)
    by (rewrite Hkeep by exact Hlt; exact Hpend).
  assert (Hlt2 : created_promise r2 < length (promises h2))
    by (rewrite Eps, length_app, Er; cbn; lia).
  rewrite <- Er in Epend, Hnew.
  destruct (notify_settles this2 h2 (created_promise r2) n Epend Hn Hlt2 Hnew)
    as (Hclear & Hout & Hother).
  fold s3 in Hclear, Hout, Hother.
  destruct (Hother p1 (not_eq_sym Hne)) as [Hst Hcalls].
  assert (Hfinal : promise_state (snd s3) p1 = Pending)
    by (rewrite Hst; exact Hp1).
  repeat split; try assumption.
  - rewrite Eh. intros Heq. symmetry in Heq.
    specialize (Hold handler Heq). lia.
  - rewrite Hcalls, Etr, settle_calls_snoc. unfold settle_calls at 2. cbn. lia.
  - intros r1 m net Hr1. destruct r1; cbn in Hr1; subst; cbn;
      rewrite Hfinal; reflexivity.
Qed.

Lemma signIn_supersedes_witness :
  let this := fst example_pending in
  let h := snd example_pending in
  let n := {| n_request := None; n_response := Some example_response;
              n_error := None |} in
  let r2 := fst (fst (signIn Popup this h)) in
  let this2 := snd (fst (signIn Popup this h)) in
  let h2 := snd (signIn Popup this h) in
  let s3 := notify n (this2, h2) in
  (pendingResolver this = Some 0 /\ promise_state h 0 = Pending)
  /\ pendingResolver this2 = Some (created_promise r2)
  /\ created_promise r2 <> 0
  /\ authHandler this2 <> authHandler this
  /\ promise_state h2 0 = Pending
  /\ promise_state (snd s3) (created_promise r2)
     = outcome_of (n_response n) (n_error n)
  /\ pendingResolver (fst s3) = None
  /\ promise_state (snd s3) 0 = Pending
  /\ settle_calls 0 (trace (snd s3)) = settle_calls 0 (trace h)
  /\ (forall r1 m net,
        created_promise r1 = 0 -> returned_state m net (snd s3) r1 = Pending).
Proof.
  split; [split; reflexivity|].
  apply (signIn_supersedes (fst example_pending) (snd example_pending) 0 Popup
           {| n_request := None; n_response := Some example_response;
              n_error := None |}).
  - reflexivity.
  - cbn. lia.
  - reflexivity.
  - intros a Ha. cbn in Ha. injection Ha as <-. cbn. lia.
  - reflexivity.
Defined.

(** C3, counterexample. [redirectCallback()] on a new manager, with nothing
    for the redirect handler to complete: the handler is asked once and never
    notifies, and the returned promise is pending, not rejected. *)
Lemma redirectCallback_stays_pending :
  let s := constructor (example_options None) initial_heap in
  let r := fst (fst (redirectCallback (fst s) (snd s))) in
  let this := snd (fst (redirectCallback (fst s) (snd s))) in
  let h := snd (redirectCallback (fst s) (snd s)) in
  trace h
  = [CompleteAuthorizationRequestIfPossible
       {| handler_class := RedirectRequestHandler; handler_object := 1 |}]
  /\ returned_state (fst (notify_all [] (this, h))) offline
       (snd (notify_all [] (this, h))) r = Pending
  /\ is_settled (returned_state (fst (notify_all [] (this, h))) offline
                   (snd (notify_all [] (this, h))) r) = false.
Proof. repeat split. Qed.

(** C3, as amended. After [redirectCallback()], as long as the redirect
    handler delivers no notification that carries a response or an error,
    the returned promise stays pending: the method has no rejection of its
    own. The first notification that carries a result settles it: an error
    rejects it with [Error(errorResponse.error)], a response hands the code
    to the token exchange. *)
Theorem redirectCallback_outcome (this : OAuthManager) (h : Heap)
  (ns : list Notification) (net : Network) :
  Forall (fun n => carries_result n = false) ns ->
  let r := fst (fst (redirectCallback this h)) in
  let s1 := (snd (fst (redirectCallback this h)), snd (redirectCallback this h)) in
  let s2 := notify_all ns s1 in
  returned_state (fst s2) net (snd s2) r = Pending
  /\ forall n,
       carries_result n = true ->
       returned_state (fst (notify n s2)) net (snd (notify n s2)) r
       = match n_response n, n_error n with
         | Some response, _ =>
             promise_then
               (requestAccessToken (fst (notify n s2)) (code response) net)
               (fun t => Fulfilled (Tokens t))
         | None, Some e => Rejected (Error (error e))
         | None, None => Pending
         end.
Proof.
  intros Hns r s1 s2.
  assert (E2 : s2 = s1) by (apply notify_all_idle; exact Hns).
  rewrite E2. clear E2 s2.
  assert (Er : r = ThenRequestAccessToken (length (promises h))) by reflexivity.
  assert (Eps : promises (snd s1) = promises h ++ [Pending]) by reflexivity.
  assert (Hp : pendingResolver (fst s1) = Some (length (promises h)))
    by reflexivity.
  destruct (promise_state_appended h (snd s1) Eps) as [Hnew _].
  rewrite Er. unfold returned_state. split.
  - rewrite Hnew. reflexivity.
  - intros n Hn.
    assert (Hlt : length (promises h) < length (promises (snd s1)))
      by (rewrite Eps, length_app; cbn; lia).
    destruct (notify_settles (fst s1) (snd s1) _ n Hp Hn Hlt Hnew)
      as (_ & Hout & _).
    change (fst s1, snd s1) with s1 in Hout.
    rewrite Hout. unfold outcome_of.
    destruct (n_response n) as [resp|]; [reflexivity|].
    destruct (n_error n); reflexivity.
Qed.

Lemma redirectCallback_outcome_witness :
  let s := constructor (example_options None) initial_heap in
  let idle := {| n_request := None; n_response := None; n_error := None |} in
  let r := fst (fst (redirectCallback (fst s) (snd s))) in
  let s1 := (snd (fst (redirectCallback (fst s) (snd s))),
             snd (redirectCallback (fst s) (snd s))) in
  let s2 := notify_all [idle; idle] s1 in
  returned_state (fst s2) offline (snd s2) r = Pending
  /\ forall n,
       carries_result n = true ->
       returned_state (fst (notify n s2)) offline (snd (notify n s2)) r
       = match n_response n, n_error n with
         | Some response, _ =>
             promise_then
               (requestAccessToken (fst (notify n s2)) (code response) offline)
               (fun t => Fulfilled (Tokens t))
         | None, Some e => Rejected (Error (error e))
         | None, None => Pending
         end.
Proof.
  apply (redirectCallback_outcome
           (fst (constructor (example_options None) initial_heap))
           (snd (constructor (example_options None) initial_heap))
           [ {| n_request := None; n_response := None; n_error := None |};
             {| n_request := None; n_response := None; n_error := None |} ]
           offline).
  repeat constructor.
Defined.

(** ** Responses *)

Lemma status_ok_iff response :
  status_ok response = true <-> (200 <= status response < 300)%Z.
Proof.
  unfold status_ok. rewrite andb_true_iff, Z.leb_le, Z.ltb_lt. reflexivity.
Qed.

Lemma truthy_message_error (j : json) :
  truthy (get_prop (get_prop (Some j) "error") "message") = true ->
  truthy (get_prop (Some j) "error") = true /\ truthy (Some j) = true.
Proof.
  intros H. destruct j; try discriminate H. cbn in *.
  destruct (assoc_get "error" props) as [[]|]; try discriminate H.
  split; reflexivity.
Qed.

Lemma truthy_error (j : json) :
  truthy (get_prop (Some j) "error") = true -> truthy (Some j) = true.
Proof. destruct j; try discriminate; reflexivity. Qed.

(** C5. [parseResponse] on every response. A body that does not parse
    rejects with the fixed could-not-parse [Error], whatever the status. A
    parsed body is returned when the status is in [200,300). Otherwise the
    promise rejects with [new Error(json.error.message)] when that value is
    present, else with [new Error(json.error)] when that one is present, else
    with [Error('Unknown error')]; present is meant as the code tests it, by
    truthiness. A message that is a non-empty string is the error's message
    as it stands. *)
Theorem parseResponse_cases (response : Response) :
  (body response = None ->
   parseResponse response
   = Rejected (Error "Unknown error. Could not parse error response"))
  /\ (forall j,
        body response = Some j ->
        (200 <= status response < 300)%Z ->
        parseResponse response = Fulfilled j)
  /\ (forall j,
        body response = Some j ->
        ~ (200 <= status response < 300)%Z ->
        let e := get_prop (Some j) "error" in
        let m := get_prop e "message" in
        (truthy m = true ->
         parseResponse response = Rejected (new_Error_of m))
        /\ (forall s, m = Some (JStr s) -> s <> "" ->
            parseResponse response = Rejected (Error s))
        /\ (truthy m = false -> truthy e = true ->
            parseResponse response = Rejected (new_Error_of e))
        /\ (truthy e = false ->
            parseResponse response = Rejected (Error "Unknown error"))).
Proof.
  split; [|split].
  - unfold parseResponse. intros ->. reflexivity.
  - unfold parseResponse. intros j -> Hs. apply status_ok_iff in Hs.
    cbn. rewrite Hs. reflexivity.
  - intros j Hb Hs e m. unfold parseResponse. rewrite Hb.
    assert (Hno : status_ok response = false).
    { destruct (status_ok response) eqn:E; [|reflexivity].
      apply status_ok_iff in E. contradiction. }
    cbn [promise_then]. rewrite Hno. fold e. fold m.
    assert (Hm : truthy m = true ->
                 (if truthy (Some j) && truthy e && truthy m
                  then Rejected (new_Error_of m)
                  else if truthy (Some j) && truthy e
                       then Rejected (new_Error_of e)
                       else Rejected (Error "Unknown error"))
                 = (Rejected (new_Error_of m) : PromiseState json)).
    { intros Hm. destruct (truthy_message_error j Hm) as [He Hj].
      fold e in He. rewrite Hj, He, Hm. reflexivity. }
    repeat split.
    + exact Hm.
    + intros s Es Hne. rewrite Hm.
      * rewrite Es. reflexivity.
      * rewrite Es. destruct s; [contradiction|reflexivity].
    + intros Hm' He. rewrite (truthy_error j He), He, Hm'. reflexivity.
    + intros He. rewrite He, andb_false_r. reflexivity.
Qed.

Lemma parseResponse_cases_witness :
  parseResponse unparseable_200
  = Rejected (Error "Unknown error. Could not parse error response")
  /\ parseResponse {| status := 204; body := Some JNull |} = Fulfilled JNull
  /\ parseResponse invalid_grant_400 = Rejected (Error "invalid_grant")
  /\ parseResponse {| status := 401; body := Some (JObj [("error", JStr "denied")]) |}
     = Rejected (Error "denied")
  /\ parseResponse {| status := 500; body := Some (JObj []) |}
     = Rejected (Error "Unknown error").
Proof.
  split; [|split; [|split; [|split]]].
  - apply (proj1 (parseResponse_cases unparseable_200)). reflexivity.
  - apply (proj1 (proj2 (parseResponse_cases
                           {| status := 204; body := Some JNull |})) JNull).
    + reflexivity.
    + cbn. lia.
  - apply (proj1 (proj2 (proj2 (proj2 (parseResponse_cases invalid_grant_400))
                           _ eq_refl ltac:(cbn; lia)))
             "invalid_grant").
    + reflexivity.
    + discriminate.
  - apply (proj1 (proj2 (proj2 (proj2 (proj2 (parseResponse_cases
             {| status := 401; body := Some (JObj [("error", JStr "denied")]) |}))
             _ eq_refl ltac:(cbn; lia))))); reflexivity.
  - apply (proj2 (proj2 (proj2 (proj2 (proj2 (parseResponse_cases
             {| status := 500; body := Some (JObj []) |}))
             _ eq_refl ltac:(cbn; lia))))); reflexivity.
Defined.

(** ** Token exchange and user info *)

(** C6, counterexample. On a manager as the constructor builds it, the code
    exchange does not treat the reply the way [parseResponse] does: a 400
    with body [{error: {message: "invalid_grant"}}] rejects with the status,
    where [parseResponse] gives [Error("invalid_grant")]; a 200 whose body
    does not parse rejects with the parse exception itself, where
    [parseResponse] gives its could-not-parse [Error]. *)
Lemma exchange_not_parseResponse :
  let this := fst (constructor (example_options None) initial_heap) in
  requestAccessToken this "SplxlOBeZQQYbYS6WxSbIA" (replying invalid_grant_400)
  = Rejected (AppAuthError (JStr "400"))
  /\ parseResponse invalid_grant_400 = Rejected (Error "invalid_grant")
  /\ requestAccessToken this "SplxlOBeZQQYbYS6WxSbIA" (replying unparseable_200)
     = Rejected SyntaxError
  /\ parseResponse unparseable_200
     = Rejected (Error "Unknown error. Could not parse error response").
Proof. repeat split. Qed.

(** C6, as amended. The code exchange and the refresh exchange do not go
    through [parseResponse]: each returns, unchanged, the promise of
    [tokenHandler.performTokenRequest] for the token request it builds
    (grant type [authorization_code] with the code, [refresh_token] with the
    token), so the token handler alone decides what a 400 or a body that
    does not parse rejects with. The routine [parseResponse] is shared by the
    two methods that call [fetch] themselves, [requestSignOut] and
    [requestUserInfo]. *)
Theorem token_exchange_delegates (this : OAuthManager) (x accessToken : string)
  (net : Network) :
  requestAccessToken this x net
  = performTokenRequest (tokenHandler this) (configuration this)
      {| tr_client_id := clientId this;
         tr_grant_type := "authorization_code";
         tr_redirect_uri := redirectUri this;
         tr_code := Some x;
         tr_refresh_token := None |} net
  /\ refreshAccessToken this x net
     = performTokenRequest (tokenHandler this) (configuration this)
         {| tr_client_id := clientId this;
            tr_grant_type := "refresh_token";
            tr_redirect_uri := redirectUri this;
            tr_code := None;
            tr_refresh_token := Some x |} net
  /\ (exists call,
        fst (requestSignOut this accessToken net) = [call]
        /\ snd (requestSignOut this accessToken net)
           = promise_then (net call) parseResponse)
  /\ (fst (requestUserInfo this accessToken net) = []
      \/ exists call,
           fst (requestUserInfo this accessToken net) = [call]
           /\ snd (requestUserInfo this accessToken net)
              = promise_then (net call) parseResponse).
Proof.
  repeat split.
  - eexists. split; reflexivity.
  - unfold requestUserInfo.
    destruct (string_truthy (userInfoEndpoint (configuration this)));
      [right|left; reflexivity].
    eexists. split; [reflexivity|]. cbn [snd negb].
    destruct (net _) as [|response|e]; cbn; try reflexivity.
    destruct (parseResponse response); reflexivity.
Qed.

Lemma promise_then_return {A} (p : PromiseState A) :
  promise_then p (fun v => Fulfilled v) = p.
Proof. destruct p; reflexivity. Qed.

(** C9. A configuration has no user-info endpoint when the field is
    [undefined] or the empty string. Then [requestUserInfo] calls [fetch]
    not at all and returns a promise already rejected; otherwise it calls
    [fetch] once, on the endpoint, with the method left to the default [GET]
    and the header [Authorization: Bearer <accessToken>], and the reply goes
    through [parseResponse]. *)
Theorem requestUserInfo_endpoint (this : OAuthManager) (accessToken : string)
  (net : Network) :
  (userInfoEndpoint (configuration this) = None
   \/ userInfoEndpoint (configuration this) = Some "" ->
   requestUserInfo this accessToken net
   = ([], Rejected (Error "Could not find userinfo endpoint")))
  /\ (forall endpoint,
        userInfoEndpoint (configuration this) = Some endpoint ->
        endpoint <> "" ->
        exists call,
          requestUserInfo this accessToken net
          = ([call], promise_then (net call) parseResponse)
          /\ url call = endpoint
          /\ effective_method call = "GET"
          /\ fetch_body call = None
          /\ In ("Authorization", String.append "Bearer " accessToken)
               (headers call)).
Proof.
  unfold requestUserInfo. split.
  - intros [-> | ->]; reflexivity.
  - intros endpoint -> Hne.
    destruct endpoint as [|c rest]; [contradiction|]. cbn.
    eexists. split; [rewrite promise_then_return; reflexivity|].
    repeat split. cbn. auto.
Qed.

Lemma requestUserInfo_endpoint_witness :
  let without :=
    fst (constructor
           {| opt_clientId := "client-id";
              opt_redirectUri := "https://app.example/callback";
              opt_configuration := Some no_userinfo;
              opt_additionalScopes := None |} initial_heap) in
  let this := fst (constructor (example_options None) initial_heap) in
  requestUserInfo without "token" offline
  = ([], Rejected (Error "Could not find userinfo endpoint"))
  /\ exists call,
       requestUserInfo this "token" offline
       = ([call], promise_then (offline call) parseResponse)
       /\ url call = "https://account.bitski.com/userinfo"
       /\ effective_method call = "GET"
       /\ fetch_body call = None
       /\ In ("Authorization", String.append "Bearer " "token") (headers call).
Proof.
  split.
  - apply (proj1 (requestUserInfo_endpoint _ "token" offline)).
    left. reflexivity.
  - apply (proj2 (requestUserInfo_endpoint
                    (fst (constructor (example_options None) initial_heap))
                    "token" offline)).
    + reflexivity.
    + discriminate.
Defined.

(** ** The assumed callback type *)

(** C10. Without an explicit type, [signInCallback] passes on the type
    [assumedCallbackType] derives from the window: [SILENT] for a framed
    window, with or without an opener; otherwise [POPUP] when there is an
    opener; otherwise [REDIRECT]. The url is passed on as given. *)
Theorem signInCallback_assumed (T : Type) (SILENT POPUP REDIRECT : T)
  (member_truthy : T -> bool) (url : option string) (w : Bitski.Window) :
  let assumed :=
    fst (Bitski.signInCallback T SILENT POPUP REDIRECT member_truthy None url w) in
  snd (Bitski.signInCallback T SILENT POPUP REDIRECT member_truthy None url w)
  = url
  /\ (Bitski.framed w -> assumed = SILENT)
  /\ (~ Bitski.framed w -> Bitski.has_opener w -> assumed = POPUP)
  /\ (~ Bitski.framed w -> ~ Bitski.has_opener w -> assumed = REDIRECT).
Proof.
  unfold Bitski.framed, Bitski.has_opener. cbn.
  unfold Bitski.assumedCallbackType.
  destruct (Nat.eqb_spec (Bitski.parent w) (Bitski.window_object w)) as [E|E];
    destruct (Bitski.opener w) as [o|]; cbn;
    repeat split; intros; try reflexivity; try contradiction.
  match goal with
  | H : ~ (Some _ <> None) |- _ => exfalso; apply H; discriminate
  end.
Qed.

Lemma signInCallback_assumed_witness :
  let in_frame :=
    {| Bitski.window_object := 1; Bitski.parent := 0; Bitski.opener := Some 2 |} in
  let in_popup :=
    {| Bitski.window_object := 1; Bitski.parent := 1; Bitski.opener := Some 2 |} in
  let top_level :=
    {| Bitski.window_object := 1; Bitski.parent := 1; Bitski.opener := None |} in
  let assumed w :=
    fst (Bitski.signInCallback string "silent" "popup" "redirect"
           (fun _ => true) None None w) in
  assumed in_frame = "silent"
  /\ assumed in_popup = "popup"
  /\ assumed top_level = "redirect".
Proof.
  split; [|split].
  - apply (proj1 (proj2 (signInCallback_assumed string "silent" "popup"
             "redirect" (fun _ => true) None
             {| Bitski.window_object := 1; Bitski.parent := 0;
                Bitski.opener := Some 2 |}))).
    unfold Bitski.framed. cbn. lia.
  - apply (proj1 (proj2 (proj2 (signInCallback_assumed string "silent" "popup"
             "redirect" (fun _ => true) None
             {| Bitski.window_object := 1; Bitski.parent := 1;
                Bitski.opener := Some 2 |})))).
    + unfold Bitski.framed. cbn. lia.
    + unfold Bitski.has_opener. cbn. discriminate.
  - apply (proj2 (proj2 (proj2 (signInCallback_assumed string "silent" "popup"
             "redirect" (fun _ => true) None
             {| Bitski.window_object := 1; Bitski.parent := 1;
                Bitski.opener := None |})))).
    + unfold Bitski.framed. cbn. lia.
    + unfold Bitski.has_opener. cbn. intros H. apply H. reflexivity.
Defined.

(** * Further properties of the manager *)

(** ** One step of a run *)

Lemma promise_state_append h h' :
  promises h' = promises h ++ [Pending] ->
  forall p, promise_state h' p = promise_state h p.
Proof.
  intros E p. unfold promise_state. rewrite E.
  destruct (Nat.lt_ge_cases p (length (promises h))) as [Hlt|Hge].
  - rewrite lookup_app_l by exact Hlt. reflexivity.
  - rewrite (proj2 (lookup_ge_None (promises h) p)) by exact Hge.
    rewrite lookup_app_r by exact Hge.
    destruct (p - length (promises h)) as [|d]; reflexivity.
Qed.

Lemma promise_state_settle_settled p q st h :
  is_settled (promise_state h p) = true ->
  promise_state (settle q st h) p = promise_state h p.
Proof.
  intros Hs. destruct (Nat.eq_dec q p) as [->|Hne].
  - unfold promise_state in *. unfold settle. cbn.
    destruct (promises h !! p) as [[| |]|] eqn:E; cbn in Hs;
      try discriminate Hs; rewrite ?E; reflexivity.
  - apply promise_state_settle_other. exact Hne.
Qed.

(** A step either opens a new pending entry, or changes nothing, or settles
    the pending entry and clears it. *)
Lemma step_cases op s :
  (promises (snd (step op s)) = promises (snd s) ++ [Pending]
   /\ pendingResolver (fst (step op s)) = Some (length (promises (snd s)))
   /\ (forall p, settle_calls p (trace (snd (step op s)))
                 = settle_calls p (trace (snd s)))
   /\ default_scopes (snd (step op s)) = default_scopes (snd s))
  \/ step op s = s
  \/ exists p st ev,
       pendingResolver (fst s) = Some p
       /\ is_settled st = true
       /\ pendingResolver (fst (step op s)) = None
       /\ snd (step op s) = emit ev (settle p st (snd s))
       /\ (forall q, settle_calls q [ev] = if Nat.eqb q p then 1 else 0).
Proof.
  destruct s as [this h]. destruct op as [k| |n].
  - left. cbn [step fst snd].
    destruct (signIn_does k this h) as (request & handler & E).
    destruct (signIn k this h) as [[r this'] h'] eqn:Es. cbn [fst snd] in *.
    destruct E as [E1 _ _ E4 E5 _ _ E8 _ _ _ _].
    repeat split; try assumption.
    intros p. rewrite E8, settle_calls_snoc. unfold settle_calls at 2. cbn. lia.
  - left. cbn [step fst snd]. repeat split.
    intros p.
    change (settle_calls p
              (trace h ++ [CompleteAuthorizationRequestIfPossible
                             {| handler_class := RedirectRequestHandler;
                                handler_object := S (allocated h) |}])
            = settle_calls p (trace h)).
    rewrite settle_calls_snoc. unfold settle_calls at 2. cbn. lia.
  - right. cbn [step]. unfold notify, didCompleteAuthorizationFlow.
    cbn [fst snd].
    destruct (pendingResolver this) as [p|] eqn:Ep; [|left; reflexivity].
    destruct (n_response n) as [resp|].
    + right. exists p, (Fulfilled resp), (CallFulfill p resp).
      repeat split. intros q. unfold settle_calls. cbn.
      destruct (Nat.eqb q p); reflexivity.
    + destruct (n_error n) as [e|]; [|left; reflexivity].
      right. exists p, (Rejected (Error (error e))), (CallReject p (Error (error e))).
      repeat split. intros q. unfold settle_calls. cbn.
      destruct (Nat.eqb q p); reflexivity.
Qed.

Lemma run_snoc ops op s : run (ops ++ [op]) s = step op (run ops s).
Proof. unfold run. rewrite fold_left_app. reflexivity. Qed.

Lemma step_requests op s :
  length (requests_of (trace (snd (step op s))))
  = length (requests_of (trace (snd s)))
    + match op with DoSignIn _ => 1 | _ => 0 end
  /\ default_scopes (snd (step op s)) = default_scopes (snd s).
Proof.
  destruct s as [this h]. destruct op as [k| |n].
  - cbn [step fst snd].
    destruct (signIn_does k this h) as (request & handler & E).
    destruct (signIn k this h) as [[r this'] h'] eqn:Es. cbn [fst snd] in *.
    destruct E as [E1 _ _ _ _ _ _ E8 _ _ _ _].
    rewrite E8, requests_of_app, length_app. split; [reflexivity|exact E1].
  - cbn [step fst snd]. split; [|reflexivity].
    change (length (requests_of
                      (trace h ++ [CompleteAuthorizationRequestIfPossible
                                     {| handler_class := RedirectRequestHandler;
                                        handler_object := S (allocated h) |}]))
            = length (requests_of (trace h)) + 0).
    rewrite requests_of_app, length_app. reflexivity.
  - cbn [step]. unfold notify, didCompleteAuthorizationFlow. cbn [fst snd].
    destruct (pendingResolver this) as [p|];
      [|split; [cbn; lia|reflexivity]].
    destruct (n_response n) as [resp|]; [|destruct (n_error n) as [e|]];
      cbn [fst snd call_fulfill call_reject emit settle trace default_scopes];
      rewrite ?requests_of_app, ?length_app;
      (split; [cbn; lia|reflexivity]).
Qed.

(** ** Runs *)

(** X5. Over every run of sign-in calls, redirect callbacks and
    notifications of a manager, the pending entry, when there is one, is an
    unsettled promise; no promise has its resolving functions called more
    than once, and a promise is settled exactly when they were called. *)
Theorem run_keeps_entry_unsettled (ops : list ManagerOp)
  (s : OAuthManager * Heap) :
  pending_ok s ->
  resolver_calls_ok (snd s) ->
  pending_ok (run ops s) /\ resolver_calls_ok (snd (run ops s)).
Proof.
  intros Hp Hr. induction ops as [|op ops IH] using rev_ind; [split; assumption|].
  rewrite run_snoc. destruct IH as [IHp IHr].
  set (m := run ops s) in *.
  destruct (step_cases op m) as [(A1 & A2 & A3 & _)|[B|(p & st & ev & C1 & C2 & C3 & C4 & C5)]].
  - pose proof (promise_state_append _ _ A1) as Hsame. split.
    + intros q Hq. rewrite A2 in Hq. injection Hq as <-.
      rewrite A1, length_app, Hsame. cbn. split; [lia|].
      unfold promise_state.
      rewrite (proj2 (lookup_ge_None (promises (snd m)) _)); [reflexivity|lia].
    + intros q. rewrite A3, Hsame. apply IHr.
  - rewrite B. split; assumption.
  - destruct (IHp p C1) as [Hlt Hpend]. split.
    + intros q Hq. rewrite C3 in Hq. discriminate Hq.
    + intros q. rewrite C4. rewrite promise_state_emit.
      cbn [emit settle trace]. rewrite settle_calls_snoc, C5.
      destruct (IHr q) as [Hle Hiff].
      destruct (Nat.eqb_spec q p) as [->|Hne].
      * rewrite promise_state_settle_same by assumption.
        assert (H0 : settle_calls p (trace (snd m)) = 0).
        { destruct (Nat.eq_dec (settle_calls p (trace (snd m))) 1) as [Ec|Ec];
            [|lia].
          apply Hiff in Ec. rewrite Hpend in Ec. discriminate Ec. }
        rewrite H0. split; [lia|]. split; [reflexivity|intros _; exact C2].
      * rewrite promise_state_settle_other by congruence.
        rewrite Nat.add_0_r. split; assumption.
Qed.

(** X6. A promise that is pending but is not the pending entry, as the
    promise of a superseded flow is, stays pending through every run: none
    of its resolving functions is ever called. *)
Theorem superseded_never_settles (ops : list ManagerOp)
  (s : OAuthManager * Heap) (p : nat) :
  p < length (promises (snd s)) ->
  pendingResolver (fst s) <> Some p ->
  promise_state (snd s) p = Pending ->
  promise_state (snd (run ops s)) p = Pending
  /\ settle_calls p (trace (snd (run ops s))) = settle_calls p (trace (snd s)).
Proof.
  intros Hlt Hne Hpend.
  assert (H : p < length (promises (snd (run ops s)))
              /\ pendingResolver (fst (run ops s)) <> Some p
              /\ promise_state (snd (run ops s)) p = Pending
              /\ settle_calls p (trace (snd (run ops s)))
                 = settle_calls p (trace (snd s))).
  { induction ops as [|op ops IH] using rev_ind; [repeat split; assumption|].
    rewrite run_snoc. destruct IH as (I1 & I2 & I3 & I4).
    set (m := run ops s) in *.
    destruct (step_cases op m)
      as [(A1 & A2 & A3 & _)|[B|(q & st & ev & C1 & C2 & C3 & C4 & C5)]].
    - rewrite A1, A2, A3, length_app, (promise_state_append _ _ A1).
      repeat split; try assumption; try lia.
      intros Heq. injection Heq as Heq. lia.
    - rewrite B. repeat split; assumption.
    - assert (Hqp : q <> p) by congruence.
      rewrite C3, C4, promise_state_emit.
      rewrite promise_state_settle_other by exact Hqp.
      cbn [emit settle trace promises]. rewrite settle_calls_snoc, C5.
      destruct (Nat.eqb_spec p q) as [->|_]; [contradiction|].
      repeat split; try assumption; try discriminate; try lia.
      destruct (promises (snd m) !! q) as [[| |]|]; try assumption.
      rewrite length_insert. exact I1. }
  destruct H as (_ & _ & H3 & H4). split; assumption.
Qed.

(** X7. A settled promise keeps its state through every run: a later
    notification cannot change what a flow resolved or rejected with. *)
Theorem settled_never_changes (ops : list ManagerOp)
  (s : OAuthManager * Heap) (p : nat) :
  is_settled (promise_state (snd s) p) = true ->
  promise_state (snd (run ops s)) p = promise_state (snd s) p.
Proof.
  intros Hs. induction ops as [|op ops IH] using rev_ind; [reflexivity|].
  rewrite run_snoc. set (m := run ops s) in *.
  destruct (step_cases op m)
    as [(A1 & _)|[B|(q & st & ev & _ & _ & _ & C4 & _)]].
  - rewrite (promise_state_append _ _ A1). exact IH.
  - rewrite B. exact IH.
  - rewrite C4, promise_state_emit.
    rewrite promise_state_settle_settled by (rewrite IH; exact Hs). exact IH.
Qed.

(** X4. Over every run, the authorization requests handed to request
    handlers are as many as the sign-in calls: a redirect callback and a
    notification hand over none. Nothing in a run changes the array
    [DEFAULT_SCOPES]. *)
Theorem run_requests (ops : list ManagerOp) (s : OAuthManager * Heap) :
  length (requests_of (trace (snd (run ops s))))
  = length (requests_of (trace (snd s))) + sign_ins ops
  /\ default_scopes (snd (run ops s)) = default_scopes (snd s).
Proof.
  induction ops as [|op ops IH] using rev_ind; [cbn; split; [lia|reflexivity]|].
  rewrite run_snoc. destruct IH as [IH1 IH2].
  destruct (step_requests op (run ops s)) as [S1 S2].
  rewrite S1, S2, IH1, IH2. split; [|reflexivity].
  unfold sign_ins. rewrite List.filter_app, length_app.
  destruct op; cbn; lia.
Qed.

Lemma run_keeps_entry_unsettled_witness :
  let s := constructor (example_options None) initial_heap in
  let ops :=
    [DoSignIn Popup;
     DoNotify {| n_request := None; n_response := Some example_response;
                 n_error := None |};
     DoNotify {| n_request := None; n_response := None;
                 n_error := Some example_error |};
     DoRedirectCallback; DoSignIn Redirect] in
  pending_ok (run ops s) /\ resolver_calls_ok (snd (run ops s)).
Proof.
  apply (run_keeps_entry_unsettled
           [DoSignIn Popup;
            DoNotify {| n_request := None; n_response := Some example_response;
                        n_error := None |};
            DoNotify {| n_request := None; n_response := None;
                        n_error := Some example_error |};
            DoRedirectCallback; DoSignIn Redirect]
           (constructor (example_options None) initial_heap)).
  - intros p Hp. discriminate Hp.
  - intros p. split; [cbn; lia|].
    split; intros H; cbn in H; discriminate H.
Defined.

Lemma superseded_never_settles_witness :
  let s := (snd (fst (signIn Popup (fst example_pending) (snd example_pending))),
            snd (signIn Popup (fst example_pending) (snd example_pending))) in
  let ops :=
    [DoNotify {| n_request := None; n_response := Some example_response;
                 n_error := None |};
     DoSignIn Redirect;
     DoNotify {| n_request := None; n_response := None;
                 n_error := Some example_error |}] in
  promise_state (snd (run ops s)) 0 = Pending
  /\ settle_calls 0 (trace (snd (run ops s))) = settle_calls 0 (trace (snd s)).
Proof.
  apply (superseded_never_settles
           [DoNotify {| n_request := None; n_response := Some example_response;
                        n_error := None |};
            DoSignIn Redirect;
            DoNotify {| n_request := None; n_response := None;
                        n_error := Some example_error |}]
           (snd (fst (signIn Popup (fst example_pending) (snd example_pending))),
            snd (signIn Popup (fst example_pending) (snd example_pending)))
           0).
  - cbn. lia.
  - cbn. discriminate.
  - reflexivity.
Defined.

Lemma settled_never_changes_witness :
  let s := notify {| n_request := None; n_response := Some example_response;
                     n_error := None |} example_pending in
  let ops :=
    [DoNotify {| n_request := None; n_response := None;
                 n_error := Some example_error |};
     DoSignIn Popup;
     DoNotify {| n_request := None; n_response := None;
                 n_error := Some example_error |}] in
  promise_state (snd s) 0 = Fulfilled example_response
  /\ promise_state (snd (run ops s)) 0 = promise_state (snd s) 0.
Proof.
  split; [reflexivity|].
  apply (settled_never_changes
           [DoNotify {| n_request := None; n_response := None;
                        n_error := Some example_error |};
            DoSignIn Popup;
            DoNotify {| n_request := None; n_response := None;
                        n_error := Some example_error |}]
           (notify {| n_request := None; n_response := Some example_response;
                      n_error := None |} example_pending)
           0).
  reflexivity.
Defined.

(** ** Construction and sign-in *)

Lemma construct_all_snoc os o h :
  construct_all (os ++ [o]) h = snd (constructor o (construct_all os h)).
Proof. unfold construct_all. rewrite fold_left_app. reflexivity. Qed.

(** X1. Every construction appends its additional scopes, as one entry, to
    the one array all managers read: after a series of constructions the
    array holds the entries it had, followed by one entry per manager
    constructed, in order, and promises and trace are as they were. So a
    sign-in of any manager asks for the additional scopes of all of them. *)
Theorem construct_all_scopes (os : list Options) (h : Heap)
  (this : OAuthManager) (k : SignIn) :
  default_scopes (construct_all os h)
  = default_scopes h
    ++ map (fun o => ScopeArr (or_default (opt_additionalScopes o) ["offline"])) os
  /\ promises (construct_all os h) = promises h
  /\ trace (construct_all os h) = trace h
  /\ scopes_requested [k] (this, construct_all os h)
     = [join " "
          (map ScopeEntry_toString (default_scopes h)
           ++ map (fun o => join "," (or_default (opt_additionalScopes o) ["offline"]))
                os)].
Proof.
  assert (H : default_scopes (construct_all os h)
              = default_scopes h
                ++ map (fun o => ScopeArr (or_default (opt_additionalScopes o)
                                             ["offline"])) os
              /\ promises (construct_all os h) = promises h
              /\ trace (construct_all os h) = trace h).
  { induction os as [|o os IH] using rev_ind.
    - cbn. rewrite app_nil_r. repeat split.
    - rewrite construct_all_snoc. destruct IH as (I1 & I2 & I3).
      cbn. rewrite I1, I2, I3, map_app, <- app_assoc. repeat split. }
  destruct H as (H1 & H2 & H3). repeat split; try assumption.
  destruct (scopes_requested_spec [k] (this, construct_all os h)) as (Hlen & Hall).
  destruct (scopes_requested [k] (this, construct_all os h)) as [|sc [|? ?]];
    try discriminate Hlen.
  apply List.Forall_inv in Hall. cbn [fst snd] in Hall. subst sc.
  unfold array_join. destruct (scopes this). cbn [deref].
  rewrite H1, map_app, map_map. reflexivity.
Qed.

Lemma notify_no_entry n this h :
  pendingResolver this = None -> notify n (this, h) = (this, h).
Proof.
  intros H. unfold notify, didCompleteAuthorizationFlow. cbn [fst snd].
  rewrite H. reflexivity.
Qed.

(** X2. A manager that has just been constructed has no pending entry:
    whatever notifications reach it before a sign-in call, carrying a
    response, an error or both, the manager and the heap stay as they are. *)
Theorem new_manager_ignores_notifications (options : Options) (h : Heap)
  (ns : list Notification) :
  notify_all ns (constructor options h) = constructor options h.
Proof.
  induction ns as [|n ns IH] using rev_ind; [reflexivity|].
  unfold notify_all in *. rewrite fold_left_app, IH. cbn [fold_left].
  apply notify_no_entry. reflexivity.
Qed.

(** X3. How a sign-in call and the notification that follows it compose. A
    response settles what [signInPopup] returned to the outcome of the token
    exchange for the response's code, made with the manager's client id,
    redirect uri, configuration and token handler, and what [signInRedirect]
    returned to the response itself, with no token exchange; an error given
    along with the response is ignored. An error alone rejects either with
    [Error(errorResponse.error)]: the description is dropped. *)
Theorem signIn_then_notify (k : SignIn) (this : OAuthManager) (h : Heap)
  (n : Notification) (net : Network) :
  carries_result n = true ->
  let r := fst (fst (signIn k this h)) in
  let s3 := notify n (snd (fst (signIn k this h)), snd (signIn k this h)) in
  returned_state (fst s3) net (snd s3) r
  = match n_response n, n_error n with
    | Some response, _ =>
        match k with
        | Popup =>
            promise_then
              (performTokenRequest (tokenHandler this) (configuration this)
                 {| tr_client_id := clientId this;
                    tr_grant_type := "authorization_code";
                    tr_redirect_uri := redirectUri this;
                    tr_code := Some (code response);
                    tr_refresh_token := None |} net)
              (fun t => Fulfilled (Tokens t))
        | Redirect => Fulfilled (Authorization response)
        end
    | None, Some e => Rejected (Error (error e))
    | None, None => Pending
    end.
Proof.
  intros Hn r s3.
  destruct (signIn_does k this h) as (request & handler & E).
  destruct E as [_ _ Er Eps Epend _ _ _ _ _ _ _].
  fold r in Er. set (this2 := snd (fst (signIn k this h))) in *.
  set (h2 := snd (signIn k this h)) in *.
  destruct (promise_state_appended h h2 Eps) as [Hnew _].
  assert (Hlt : length (promises h) < length (promises h2))
    by (rewrite Eps, length_app; cbn; lia).
  destruct (notify_settles this2 h2 _ n Epend Hn Hlt Hnew) as (_ & Hout & _).
  fold s3 in Hout.
  assert (Hfields : configuration (fst s3) = configuration this
                    /\ clientId (fst s3) = clientId this
                    /\ redirectUri (fst s3) = redirectUri this
                    /\ tokenHandler (fst s3) = tokenHandler this).
  { subst s3 this2 h2. unfold notify, didCompleteAuthorizationFlow.
    destruct k; cbn [fst snd signIn signInPopup signInRedirect new_Promise
                       new_object createAuthRequest set_pending set_authHandler
                       pendingResolver];
      destruct (n_response n); try destruct (n_error n); repeat split. }
  destruct Hfields as (F1 & F2 & F3 & F4).
  assert (Hr : r = match k with
                   | Popup => ThenRequestAccessToken (length (promises h))
                   | Redirect => Bare (length (promises h))
                   end)
    by (subst r; destruct k; reflexivity).
  rewrite Hr. unfold outcome_of in Hout.
  destruct k; unfold returned_state; rewrite Hout;
    destruct (n_response n) as [resp|]; try (destruct (n_error n); reflexivity).
  cbn [promise_then]. unfold requestAccessToken, createTokenRequest.
  rewrite F1, F2, F3, F4. reflexivity.
Qed.

Lemma signIn_then_notify_witness :
  let this := fst (constructor (example_options None) initial_heap) in
  let h := snd (constructor (example_options None) initial_heap) in
  let n := {| n_request := None; n_response := Some example_response;
              n_error := Some example_error |} in
  let r := fst (fst (signIn Redirect this h)) in
  let s3 := notify n (snd (fst (signIn Redirect this h)),
                      snd (signIn Redirect this h)) in
  returned_state (fst s3) offline (snd s3) r
  = Fulfilled (Authorization example_response).
Proof.
  apply (signIn_then_notify Redirect
           (fst (constructor (example_options None) initial_heap))
           (snd (constructor (example_options None) initial_heap))
           {| n_request := None; n_response := Some example_response;
              n_error := Some example_error |} offline).
  reflexivity.
Defined.

(** * Further properties of the responses *)

Lemma parseResponse_not_ok response j :
  body response = Some j ->
  ~ (200 <= status response < 300)%Z ->
  parseResponse response
  = if truthy (Some j) && truthy (get_prop (Some j) "error")
         && truthy (get_prop (get_prop (Some j) "error") "message")
    then Rejected (new_Error_of (get_prop (get_prop (Some j) "error") "message"))
    else if truthy (Some j) && truthy (get_prop (Some j) "error")
         then Rejected (new_Error_of (get_prop (Some j) "error"))
         else Rejected (Error "Unknown error").
Proof.
  intros Hb Hs. unfold parseResponse. rewrite Hb. cbn [promise_then].
  destruct (status_ok response) eqn:E; [|reflexivity].
  apply status_ok_iff in E. contradiction.
Qed.


(** X9. A reply outside [200,300) whose body is valid JSON but not an
    object ([null], a boolean, a number, a string, an array) rejects with
    [Error('Unknown error')], whatever the value is. *)
Theorem parseResponse_not_object (response : Response) (j : json) :
  body response = Some j ->
  ~ (200 <= status response < 300)%Z ->
  (forall props, j <> JObj props) ->
  parseResponse response = Rejected (Error "Unknown error").
Proof.
  intros Hb Hs Hj. rewrite (parseResponse_not_ok response j Hb Hs).
  destruct j; try (rewrite ?andb_false_r; reflexivity).
  exfalso. apply (Hj props). reflexivity.
Qed.

Lemma parseResponse_not_object_witness :
  parseResponse {| status := 502; body := Some (JStr "Bad Gateway") |}
  = Rejected (Error "Unknown error").
Proof.
  apply (parseResponse_not_object
           {| status := 502; body := Some (JStr "Bad Gateway") |}
           (JStr "Bad Gateway")).
  - reflexivity.
  - cbn. lia.
  - intros props H. discriminate H.
Defined.

(** X10. A reply outside [200,300) whose [error] member is an object with
    no usable [message] (absent, empty, [null], [false] or zero) is rejected
    with the object converted to a string: the message is the text
    ["[object Object]"], and the conversion fails with a [TypeError] when the
    object has a member named [toString]. *)
Theorem parseResponse_error_object (response : Response)
  (props eprops : list (string * json)) :
  body response = Some (JObj props) ->
  ~ (200 <= status response < 300)%Z ->
  assoc_get "error" props = Some (JObj eprops) ->
  truthy (assoc_get "message" eprops) = false ->
  parseResponse response
  = Rejected (if has_own "toString" eprops then TypeError
              else Error "[object Object]").
Proof.
  intros Hb Hs He Hm. rewrite (parseResponse_not_ok response _ Hb Hs).
  cbn [get_prop truthy truthy_json andb]. rewrite He.
  cbn [get_prop truthy truthy_json andb]. rewrite Hm.
  unfold new_Error_of, new_Error. cbn [ToString].
  destruct (has_own "toString" eprops); reflexivity.
Qed.

Lemma parseResponse_error_object_witness :
  parseResponse
    {| status := 403;
       body := Some (JObj [("error", JObj [("code", JNum "403");
                                           ("message", JStr "")])]) |}
  = Rejected (Error "[object Object]").
Proof.
  apply (parseResponse_error_object
           {| status := 403;
              body := Some (JObj [("error", JObj [("code", JNum "403");
                                                  ("message", JStr "")])]) |}
           [("error", JObj [("code", JNum "403"); ("message", JStr "")])]
           [("code", JNum "403"); ("message", JStr "")]).
  - reflexivity.
  - cbn. lia.
  - reflexivity.
  - reflexivity.
Defined.

(** * Further properties of the methods that call [fetch] *)

(** X11. [requestSignOut] does not look at the manager: whatever its
    configuration, it makes one [fetch], a [POST] to
    [https://www.bitski.com/v1/logout] with the access token as bearer, and
    passes the reply to [parseResponse]. *)
Theorem requestSignOut_fixed (this this' : OAuthManager) (accessToken : string)
  (net : Network) :
  requestSignOut this accessToken net = requestSignOut this' accessToken net
  /\ exists call,
       requestSignOut this accessToken net
       = ([call], promise_then (net call) parseResponse)
       /\ url call = "https://www.bitski.com/v1/logout"
       /\ effective_method call = "POST"
       /\ fetch_body call = None
       /\ In ("Authorization", String.append "Bearer " accessToken)
            (headers call).
Proof.
  split; [reflexivity|]. eexists. split; [reflexivity|].
  repeat split. cbn. auto.
Qed.



(** * Further properties of the class Bitski *)

(** ** The map of engines *)

Lemma Map_get_set_same {V} (k : string) (v : V) m :
  Bitski.Map_get k (Bitski.Map_set k v m) = Some v.
Proof.
  induction m as [|[k' v'] m IH]; cbn.
  - rewrite String.eqb_refl. reflexivity.
  - destruct (String.eqb k k') eqn:E; cbn; rewrite ?String.eqb_refl, ?E; auto.
Qed.

Lemma Map_set_new {V} (k : string) (v : V) m :
  Bitski.Map_get k m = None -> Bitski.Map_set k v m = m ++ [(k, v)].
Proof.
  induction m as [|[k' v'] m IH]; cbn; [reflexivity|].
  destruct (String.eqb k k'); [discriminate|]. intros H. rewrite IH by exact H.
  reflexivity.
Qed.


Lemma Map_set_existing {V W} (g : V -> W) (k : string) (v e : V) m :
  Bitski.Map_get k m = Some e ->
  g v = g e ->
  map fst (Bitski.Map_set k v m) = map fst m
  /\ map (fun kv => g (snd kv)) (Bitski.Map_set k v m)
     = map (fun kv => g (snd kv)) m.
Proof.
  intros Hget Hg. induction m as [|[k' v'] m IH]; cbn in *; [discriminate|].
  destruct (String.eqb_spec k k') as [->|Hne]; cbn.
  - injection Hget as ->. rewrite Hg. split; reflexivity.
  - destruct (IH Hget) as [I1 I2]. rewrite I1, I2. split; reflexivity.
Qed.


Lemma Map_set_same_value {V} (k : string) (e : V) m :
  Bitski.Map_get k m = Some e -> Bitski.Map_set k e m = m.
Proof.
  induction m as [|[k' v'] m IH]; cbn; [discriminate|].
  destruct (String.eqb_spec k k') as [->|Hne].
  - intros H. injection H as ->. reflexivity.
  - intros H. rewrite IH by exact H. reflexivity.
Qed.


(** ** Engines *)

Lemma running_call c engine :
  Bitski.running (Bitski.call c engine)
  = match c with
    | Bitski.Start => true
    | Bitski.Stop => false
    | _ => Bitski.running engine
    end.
Proof.
  unfold Bitski.running, Bitski.call. cbn. rewrite fold_left_app.
  destruct c; reflexivity.
Qed.



Lemma emit_error_set_up message engine :
  Bitski.set_up engine ->
  Bitski.emit_error message engine = Bitski.error_listener message engine.
Proof.
  intros (a & f & later & E & Hl). unfold Bitski.emit_error. rewrite E.
  rewrite fold_left_app. cbn [Bitski.setup_calls fold_left].
  generalize (Bitski.error_listener message engine). clear E. intros e.
  induction Hl as [|c later [-> | ->] _ IH]; cbn; auto.
Qed.

Lemma getProvider_existing networkName options this fresh e :
  Bitski.Map_get (Bitski.string_or networkName "mainnet") (Bitski.engines this)
  = Some e ->
  Bitski.getProvider networkName options this fresh
  = (Bitski.call Bitski.Start e,
     Bitski.set_engines this
       (Bitski.Map_set (Bitski.string_or networkName "mainnet")
          (Bitski.call Bitski.Start e) (Bitski.engines this)),
     fresh).
Proof. intros H. unfold Bitski.getProvider. rewrite H. reflexivity. Qed.

Lemma getProvider_stores networkName options this fresh :
  Bitski.Map_get (Bitski.string_or networkName "mainnet")
    (Bitski.engines (snd (fst (Bitski.getProvider networkName options this fresh))))
  = Some (fst (fst (Bitski.getProvider networkName options this fresh))).
Proof.
  unfold Bitski.getProvider.
  destruct (Bitski.Map_get _ (Bitski.engines this)) as [e|].
  - cbn. apply Map_get_set_same.
  - destruct (match networkName with
              | Some name => _
              | None => _
              end) as [provider fresh'].
    cbn. apply Map_get_set_same.
Qed.

(** X13. [getProvider] caches by [networkName || 'mainnet']. Two calls in a
    row whose names give the same key return the same engine object, so
    [getProvider()] and [getProvider('mainnet')] share one engine: the second
    call makes no engine, leaves the keys of the map as they are, ignores its
    own [options], and calls [start()] on the engine. *)
Theorem getProvider_cached (n1 n2 : option string) (o1 o2 : jsval)
  (this : Bitski.Bitski) (fresh : nat) :
  Bitski.string_or n1 "mainnet" = Bitski.string_or n2 "mainnet" ->
  let first := Bitski.getProvider n1 o1 this fresh in
  let second := Bitski.getProvider n2 o2 (snd (fst first)) (snd first) in
  Bitski.engine_object (fst (fst second)) = Bitski.engine_object (fst (fst first))
  /\ Bitski.engine_options (fst (fst second))
     = Bitski.engine_options (fst (fst first))
  /\ Bitski.engine_calls (fst (fst second))
     = Bitski.engine_calls (fst (fst first)) ++ [Bitski.Start]
  /\ map fst (Bitski.engines (snd (fst second)))
     = map fst (Bitski.engines (snd (fst first)))
  /\ snd second = snd first.
Proof.
  intros Hkey first second.
  pose proof (getProvider_stores n1 o1 this fresh) as Hst.
  fold first in Hst. rewrite Hkey in Hst.
  subst second. rewrite (getProvider_existing n2 o2 _ _ _ Hst). cbn [fst snd].
  repeat split.
  cbn [Bitski.set_engines Bitski.engines].
  apply (Map_set_existing Bitski.engine_object _ _ _ _ Hst). reflexivity.
Qed.

Lemma getProvider_cached_witness :
  let this := Bitski.constructor "https://app.example/" "client-id" None None None in
  let first := Bitski.getProvider None None this 0 in
  let second :=
    Bitski.getProvider (Some "mainnet") None (snd (fst first)) (snd first) in
  Bitski.engine_object (fst (fst second)) = Bitski.engine_object (fst (fst first))
  /\ Bitski.engine_options (fst (fst second))
     = Bitski.engine_options (fst (fst first))
  /\ Bitski.engine_calls (fst (fst second))
     = Bitski.engine_calls (fst (fst first)) ++ [Bitski.Start]
  /\ map fst (Bitski.engines (snd (fst second)))
     = map fst (Bitski.engines (snd (fst first)))
  /\ snd second = snd first.
Proof.
  apply (getProvider_cached None (Some "mainnet") None None
           (Bitski.constructor "https://app.example/" "client-id" None None None)
           0).
  reflexivity.
Defined.

(** X14. What [getProvider] builds when the map has no engine for the key.
    The new engine is started, has the six default subproviders first, then
    the authorization subprovider, then the fetch subprovider, last. For no
    name and for [mainnet], [rinkeby] and [kovan] these are the iframe
    subprovider and an authenticated fetch to
    [https://api.bitski.com/v1/web3/<network>] that sends the client id as
    [X-API-KEY] and [X-CLIENT-ID]; for every other name they are the local
    dialog subprovider and a plain RPC source whose url is the name. *)
Theorem getProvider_new (networkName : option string) (options : jsval)
  (this : Bitski.Bitski) (fresh : nat) :
  Bitski.Map_get (Bitski.string_or networkName "mainnet") (Bitski.engines this)
  = None ->
  let engine := fst (fst (Bitski.getProvider networkName options this fresh)) in
  Bitski.engine_object engine = fresh
  /\ Bitski.engine_options engine = options
  /\ Bitski.running engine = true
  /\ snd (Bitski.getProvider networkName options this fresh) = S fresh
  /\ (networkName = None \/ networkName = Some "mainnet"
      \/ networkName = Some "rinkeby" \/ networkName = Some "kovan" ->
      Bitski.providers engine
      = Bitski.default_subproviders fresh
        ++ [Bitski.IFrameSubprovider "https://www.bitski.com"
              (Bitski.string_or networkName "mainnet");
            Bitski.AuthenticatedFetchSubprovider
              (String.append "https://api.bitski.com/v1/web3/"
                 (Bitski.string_or networkName "mainnet"))
              false
              [("X-API-KEY", Bitski.clientId this);
               ("X-CLIENT-ID", Bitski.clientId this)]])
  /\ (forall name,
        networkName = Some name ->
        name <> "mainnet" -> name <> "rinkeby" -> name <> "kovan" ->
        Bitski.providers engine
        = Bitski.default_subproviders fresh
          ++ [Bitski.LocalDialogSubprovider; Bitski.RpcSource name]).
Proof.
  intros Hnone engine. subst engine. unfold Bitski.getProvider. rewrite Hnone.
  destruct networkName as [name|].
  - destruct (String.eqb_spec name "mainnet") as [->|H1];
      [|destruct (String.eqb_spec name "rinkeby") as [->|H2];
        [|destruct (String.eqb_spec name "kovan") as [->|H3]]];
      cbn [orb]; repeat split; try reflexivity;
      try (intros n Hn; injection Hn as <-; intros; contradiction).
    + intros [H|[H|[H|H]]]; congruence.
    + intros n Hn. injection Hn as <-. reflexivity.
  - repeat split; try reflexivity. intros n Hn. discriminate Hn.
Qed.

Lemma getProvider_new_witness :
  let this := Bitski.constructor "https://app.example/" "client-id" None None None in
  let engine :=
    fst (fst (Bitski.getProvider (Some "http://localhost:8545") None this 7)) in
  Bitski.engine_object engine = 7
  /\ Bitski.running engine = true
  /\ Bitski.providers engine
     = Bitski.default_subproviders 7
       ++ [Bitski.LocalDialogSubprovider;
           Bitski.RpcSource "http://localhost:8545"].
Proof.
  destruct (getProvider_new (Some "http://localhost:8545") None
              (Bitski.constructor "https://app.example/" "client-id"
                 None None None) 7 eq_refl)
    as (A & _ & B & _ & _ & C).
  split; [exact A|]. split; [exact B|].
  apply (C "http://localhost:8545"); [reflexivity| | |]; discriminate.
Defined.

Lemma providers_call_Start engine :
  Bitski.providers (Bitski.call Bitski.Start engine) = Bitski.providers engine.
Proof.
  unfold Bitski.providers, Bitski.call. cbn.
  rewrite flat_map_app. cbn. apply app_nil_r.
Qed.

(** X15. The empty string as network name. [getProvider('')] finds no
    engine under the key [mainnet], builds a third-party engine whose RPC url
    is the empty string, and stores it under [mainnet]: the next
    [getProvider()], [getProvider('mainnet')] or [getProvider('')] returns
    that third-party engine. *)
Theorem getProvider_empty_name (o1 o2 : jsval) (n2 : option string)
  (this : Bitski.Bitski) (fresh : nat) :
  Bitski.Map_get "mainnet" (Bitski.engines this) = None ->
  n2 = None \/ n2 = Some "mainnet" \/ n2 = Some "" ->
  let first := Bitski.getProvider (Some "") o1 this fresh in
  let second := Bitski.getProvider n2 o2 (snd (fst first)) (snd first) in
  Bitski.providers (fst (fst first))
  = Bitski.default_subproviders fresh
    ++ [Bitski.LocalDialogSubprovider; Bitski.RpcSource ""]
  /\ Bitski.Map_get "mainnet" (Bitski.engines (snd (fst first)))
     = Some (fst (fst first))
  /\ Bitski.engine_object (fst (fst second)) = fresh
  /\ Bitski.providers (fst (fst second))
     = Bitski.default_subproviders fresh
       ++ [Bitski.LocalDialogSubprovider; Bitski.RpcSource ""].
Proof.
  intros Hnone Hn2 first second.
  assert (Hkey : Bitski.string_or n2 "mainnet" = "mainnet")
    by (destruct Hn2 as [->|[->| ->]]; reflexivity).
  pose proof (getProvider_stores (Some "") o1 this fresh) as Hst.
  fold first in Hst. change (Bitski.string_or (Some "") "mainnet") with "mainnet" in Hst.
  assert (Hfirst : Bitski.engine_object (fst (fst first)) = fresh
                   /\ Bitski.providers (fst (fst first))
                      = Bitski.default_subproviders fresh
                        ++ [Bitski.LocalDialogSubprovider; Bitski.RpcSource ""]).
  { subst first. unfold Bitski.getProvider.
    change (Bitski.string_or (Some "") "mainnet") with "mainnet".
    rewrite Hnone. split; reflexivity. }
  destruct Hfirst as [F1 F2].
  rewrite <- Hkey in Hst.
  subst second. rewrite (getProvider_existing n2 o2 _ _ _ Hst). cbn [fst snd].
  rewrite providers_call_Start. rewrite Hkey in Hst.
  repeat split; assumption.
Qed.

Lemma getProvider_empty_name_witness :
  let this := Bitski.constructor "https://app.example/" "client-id" None None None in
  let first := Bitski.getProvider (Some "") None this 0 in
  let second := Bitski.getProvider None None (snd (fst first)) (snd first) in
  Bitski.providers (fst (fst first))
  = Bitski.default_subproviders 0
    ++ [Bitski.LocalDialogSubprovider; Bitski.RpcSource ""]
  /\ Bitski.Map_get "mainnet" (Bitski.engines (snd (fst first)))
     = Some (fst (fst first))
  /\ Bitski.engine_object (fst (fst second)) = 0
  /\ Bitski.providers (fst (fst second))
     = Bitski.default_subproviders 0
       ++ [Bitski.LocalDialogSubprovider; Bitski.RpcSource ""].
Proof.
  apply (getProvider_empty_name None None None
           (Bitski.constructor "https://app.example/" "client-id" None None None)
           0).
  - reflexivity.
  - left. reflexivity.
Defined.

Lemma getProvider_none networkName options this fresh :
  Bitski.Map_get (Bitski.string_or networkName "mainnet") (Bitski.engines this)
  = None ->
  exists fetch authorization,
    Bitski.getProvider networkName options this fresh
    = (fst (Bitski.createEngine fetch authorization options this fresh),
       Bitski.set_engines this
         (Bitski.engines this
          ++ [(Bitski.string_or networkName "mainnet",
               fst (Bitski.createEngine fetch authorization options this fresh))]),
       S fresh).
Proof.
  intros Hnone. unfold Bitski.getProvider. rewrite Hnone.
  destruct networkName as [name|].
  - destruct (String.eqb name "mainnet" || String.eqb name "rinkeby"
              || String.eqb name "kovan").
    + eexists _, _. unfold Bitski.createBitskiEngine.
      destruct (Bitski.createEngine _ _ options this fresh) as [e f] eqn:E.
      cbn in E. injection E as <- <-.
      rewrite (Map_set_new _ _ _ Hnone). reflexivity.
    + eexists _, _. unfold Bitski.createThirdPartyEngine.
      destruct (Bitski.createEngine _ _ options this fresh) as [e f] eqn:E.
      cbn in E. injection E as <- <-.
      rewrite (Map_set_new _ _ _ Hnone). reflexivity.
  - eexists _, _. unfold Bitski.createBitskiEngine.
    destruct (Bitski.createEngine _ _ options this fresh) as [e f] eqn:E.
    cbn in E. injection E as <- <-.
    rewrite (Map_set_new _ _ _ Hnone). reflexivity.
Qed.





(** X17. [signOut] stops every engine and keeps them all in the map. A
    [getProvider] that follows returns a running engine; when the map had an
    engine for the key it is that same engine, started again, and no new
    engine is made. *)
Theorem signOut_then_getProvider (networkName : option string) (options : jsval)
  (this : Bitski.Bitski) (fresh : nat) :
  let out := Bitski.signOut this in
  let again := Bitski.getProvider networkName options out fresh in
  Forall (fun kv => Bitski.running (snd kv) = false) (Bitski.engines out)
  /\ map fst (Bitski.engines out) = map fst (Bitski.engines this)
  /\ Bitski.running (fst (fst again)) = true
  /\ forall e,
       Bitski.Map_get (Bitski.string_or networkName "mainnet")
         (Bitski.engines this) = Some e ->
       Bitski.engine_object (fst (fst again)) = Bitski.engine_object e
       /\ Bitski.engine_calls (fst (fst again))
          = Bitski.engine_calls e ++ [Bitski.Stop; Bitski.Start]
       /\ snd again = fresh.
Proof.
  intros out again.
  assert (Hget : forall k e,
             Bitski.Map_get k (Bitski.engines this) = Some e ->
             Bitski.Map_get k (Bitski.engines out)
             = Some (Bitski.call Bitski.Stop e)).
  { intros k e. subst out. unfold Bitski.signOut. cbn [Bitski.set_engines Bitski.engines].
    induction (Bitski.engines this) as [|[k' v'] m IH]; cbn; [discriminate|].
    destruct (String.eqb k k'); [|exact IH].
    intros H. injection H as ->. reflexivity. }
  repeat split.
  - subst out. unfold Bitski.signOut. cbn [Bitski.set_engines Bitski.engines].
    apply List.Forall_map. apply List.Forall_forall. intros kv _. cbn [snd].
    apply running_call.
  - subst out. unfold Bitski.signOut. cbn [Bitski.set_engines Bitski.engines].
    rewrite map_map. reflexivity.
  - subst again.
    destruct (Bitski.Map_get (Bitski.string_or networkName "mainnet")
                (Bitski.engines out)) as [e|] eqn:E.
    + rewrite (getProvider_existing _ options _ fresh _ E). cbn [fst].
      apply running_call.
    + destruct (getProvider_none _ options out fresh E)
        as (fetch & authorization & ->).
      reflexivity.
  - subst again. rewrite (getProvider_existing _ options _ fresh _ (Hget _ _ H)).
    reflexivity.
  - subst again. rewrite (getProvider_existing _ options _ fresh _ (Hget _ _ H)).
    cbn. rewrite <- app_assoc. reflexivity.
  - subst again. rewrite (getProvider_existing _ options _ fresh _ (Hget _ _ H)).
    reflexivity.
Qed.

Lemma signOut_then_getProvider_witness :
  let this :=
    snd (fst (Bitski.getProvider (Some "rinkeby") None
                (Bitski.constructor "https://app.example/" "client-id"
                   None None None) 0)) in
  let out := Bitski.signOut this in
  let again := Bitski.getProvider (Some "rinkeby") None out 1 in
  Forall (fun kv => Bitski.running (snd kv) = false) (Bitski.engines out)
  /\ Bitski.running (fst (fst again)) = true
  /\ Bitski.engine_object (fst (fst again)) = 0
  /\ snd again = 1.
Proof.
  destruct (signOut_then_getProvider (Some "rinkeby") None
              (snd (fst (Bitski.getProvider (Some "rinkeby") None
                           (Bitski.constructor "https://app.example/"
                              "client-id" None None None) 0))) 1)
    as (A & _ & B & C).
  destruct (C _ eq_refl) as (D & _ & E).
  split; [exact A|]. split; [exact B|]. split; [exact D|exact E].
Defined.

(** X18. The error listener of an engine set up by [createEngine]: an
    [error] event whose message is ['Not signed in'] stops the engine, once;
    an [error] event with any other message changes nothing. An event on a
    key without engine changes nothing either. *)
Theorem engine_error_stops (key message : string) (this : Bitski.Bitski) :
  (forall e,
     Bitski.Map_get key (Bitski.engines this) = Some e -> Bitski.set_up e) ->
  (Bitski.Map_get key (Bitski.engines this) = None ->
   Bitski.engine_error key message this = this)
  /\ (message <> "Not signed in" ->
      Bitski.engine_error key message this = this)
  /\ (forall e,
        Bitski.Map_get key (Bitski.engines this) = Some e ->
        message = "Not signed in" ->
        Bitski.Map_get key (Bitski.engines (Bitski.engine_error key message this))
        = Some (Bitski.call Bitski.Stop e)
        /\ Bitski.running (Bitski.call Bitski.Stop e) = false).
Proof.
  intros Hset. unfold Bitski.engine_error. repeat split.
  - intros ->. reflexivity.
  - intros Hne.
    destruct (Bitski.Map_get key (Bitski.engines this)) as [e|] eqn:E;
      [|reflexivity].
    rewrite (emit_error_set_up message e (Hset e eq_refl)).
    unfold Bitski.error_listener.
    destruct (String.eqb_spec message "Not signed in"); [contradiction|].
    rewrite (Map_set_same_value _ _ _ E). destruct this; reflexivity.
  - rewrite H. rewrite (emit_error_set_up message e (Hset e H)).
    unfold Bitski.error_listener. rewrite H0. cbn [String.eqb Ascii.eqb Bool.eqb].
    cbn [Bitski.set_engines Bitski.engines]. apply Map_get_set_same.
  - apply running_call.
Qed.

Lemma engine_error_stops_witness :
  let this :=
    snd (fst (Bitski.getProvider None None
                (Bitski.constructor "https://app.example/" "client-id"
                   None None None) 0)) in
  Bitski.engine_error "mainnet" "Network request failed" this = this
  /\ exists e,
       Bitski.Map_get "mainnet" (Bitski.engines this) = Some e
       /\ Bitski.Map_get "mainnet"
            (Bitski.engines (Bitski.engine_error "mainnet" "Not signed in" this))
          = Some (Bitski.call Bitski.Stop e)
       /\ Bitski.running (Bitski.call Bitski.Stop e) = false.
Proof.
  assert (Hset : forall e,
             Bitski.Map_get "mainnet"
               (Bitski.engines
                  (snd (fst (Bitski.getProvider None None
                               (Bitski.constructor "https://app.example/"
                                  "client-id" None None None) 0))))
             = Some e -> Bitski.set_up e).
  { intros e H. cbn in H. injection H as <-.
    eexists _, _, []. split; [reflexivity|constructor]. }
  split.
  - apply (proj1 (proj2 (engine_error_stops "mainnet" "Network request failed"
                           _ Hset)));
      discriminate.
  - eexists. split; [reflexivity|].
    apply (proj2 (proj2 (engine_error_stops "mainnet" "Not signed in"
                           _ Hset))); reflexivity.
Defined.



(** X20. [signInCallback] with an explicit type. A type whose value is
    truthy is passed on as it is, whatever the window; a type whose value is
    falsy (the member numbered zero of a numeric enumeration) is treated as
    no type at all: the type assumed from the window is passed instead. *)
Theorem signInCallback_explicit (T : Type) (SILENT POPUP REDIRECT : T)
  (member_truthy : T -> bool) (t : T) (url : option string)
  (w : Bitski.Window) :
  (member_truthy t = true ->
   Bitski.signInCallback T SILENT POPUP REDIRECT member_truthy (Some t) url w
   = (t, url))
  /\ (member_truthy t = false ->
      Bitski.signInCallback T SILENT POPUP REDIRECT member_truthy (Some t) url w
      = Bitski.signInCallback T SILENT POPUP REDIRECT member_truthy None url w).
Proof.
  unfold Bitski.signInCallback. split; intros ->; reflexivity.
Qed.

Lemma signInCallback_explicit_witness :
  let top_level :=
    {| Bitski.window_object := 1; Bitski.parent := 1; Bitski.opener := None |} in
  let truthy_value (n : nat) := negb (Nat.eqb n 0) in
  Bitski.signInCallback nat 3 2 1 truthy_value (Some 2) None top_level
  = (2, None)
  /\ Bitski.signInCallback nat 3 2 1 truthy_value (Some 0) None top_level
     = Bitski.signInCallback nat 3 2 1 truthy_value None None top_level.
Proof.
  split.
  - apply (proj1 (signInCallback_explicit nat 3 2 1
                    (fun n => negb (Nat.eqb n 0)) 2 None
                    {| Bitski.window_object := 1; Bitski.parent := 1;
                       Bitski.opener := None |})).
    reflexivity.
  - apply (proj2 (signInCallback_explicit nat 3 2 1
                    (fun n => negb (Nat.eqb n 0)) 0 None
                    {| Bitski.window_object := 1; Bitski.parent := 1;
                       Bitski.opener := None |})).
    reflexivity.
Defined.

(** * The request of a sign-in, from the options of the constructor *)

(** X21. A sign-in call of a manager hands exactly one request to a new
    handler, of class [PopupRequestHandler] for [signInPopup] and
    [RedirectRequestHandler] for [signInRedirect], together with the
    configuration given to the constructor, or the Bitski endpoints when none
    was given. The request has the client id and redirect uri of the
    constructor's options and response type [code]. *)
Theorem signIn_request_of_options (options : Options) (h : Heap) (k : SignIn) :
  let s := constructor options h in
  exists handler request,
    trace (snd (signIn k (fst s) (snd s)))
    = trace h
      ++ [PerformAuthorizationRequest handler
            (or_default (opt_configuration options) DEFAULT_CONFIGURATION)
            request]
    /\ handler_class handler
       = match k with
         | Popup => PopupRequestHandler
         | Redirect => RedirectRequestHandler
         end
    /\ authHandler (snd (fst (signIn k (fst s) (snd s)))) = Some handler
    /\ client_id request = opt_clientId options
    /\ redirect_uri request = opt_redirectUri options
    /\ response_type request = "code"
    /\ request_object request <> handler_object handler.
Proof.
  destruct k; cbn; eexists _, _; repeat split; cbn; lia.
Qed.
